(** * hassil: template parser and matcher

    A shallow embedding of [hassil/parse_expression.py] and
    [hassil/recognize.py], with the properties of the specification
    stated and settled on it.

    Conventions of the embedding.
    - A Python [str] is a sequence of Unicode code points: [list N].
    - A dictionary that is only looked up or merged is a [gmap]; a
      dictionary that is iterated with [.items()] is the list of its
      items in iteration order.
    - A generator is the list of the values it yields, followed by the
      way it stops: normally, by raising, or by running out of the
      recursion budget [fuel] (rule references may be cyclic). *)

From Stdlib Require Import ZArith NArith String Ascii List Bool Lia.
From stdpp Require Import base option list gmap.

Set Warnings "-register-all".

Open Scope N_scope.

(** ** Python primitives on strings *)

Module Py.

Abbreviation str := (list N).

(** A string literal of the development, as code points. *)
Definition lit (s : string) : str :=
  List.map N_of_ascii (list_ascii_of_string s).

(** [c.isspace()], also the class [\s] of [re] on [str] patterns. *)
Definition is_space (c : N) : bool :=
  ((9 <=? c) && (c <=? 13)) || ((28 <=? c) && (c <=? 32))
  || (c =? 133) || (c =? 160) || (c =? 5760)
  || ((8192 <=? c) && (c <=? 8202))
  || (c =? 8232) || (c =? 8233) || (c =? 8239) || (c =? 8287)
  || (c =? 12288).

(** The class [[0-9]]. *)
Definition is_digit (c : N) : bool := (48 <=? c) && (c <=? 57).

Fixpoint take_while (p : N -> bool) (s : str) : str :=
  match s with
  | [] => []
  | c :: rest => if p c then c :: take_while p rest else []
  end.

Fixpoint drop_while (p : N -> bool) (s : str) : str :=
  match s with
  | [] => []
  | c :: rest => if p c then drop_while p rest else s
  end.

(** [s.lstrip()], [s.rstrip()], [s.strip()] *)
Definition lstrip (s : str) : str := drop_while is_space s.
Definition rstrip (s : str) : str := rev (drop_while is_space (rev s)).
Definition strip (s : str) : str := rstrip (lstrip s).

(** [s.isspace()]: at least one character, all of them whitespace. *)
Definition isspace (s : str) : bool :=
  match s with
  | [] => false
  | _ => forallb is_space s
  end.

(** [s.startswith(p)] *)
Fixpoint startswith (s p : str) {struct p} : bool :=
  match p with
  | [] => true
  | a :: p' =>
      match s with
      | [] => false
      | b :: s' => (a =? b) && startswith s' p'
      end
  end.

(** [s.endswith(" ")] *)
Definition endswith_space (s : str) : bool :=
  match last s with
  | Some c => c =? 32
  | None => false
  end.

(** [s[n:]] and [s[:-n]] for [n > 0] *)
Definition slice_from (n : nat) (s : str) : str := drop n s.
Definition slice_to_neg (n : nat) (s : str) : str := take (length s - n) s.

(** [s.split()[0]] on a string holding a non-whitespace character. *)
Definition first_token (s : str) : str :=
  take_while (fun c => negb (is_space c)) (lstrip s).

(** Truth value of a string: non-empty. *)
Definition truthy (s : str) : bool :=
  match s with [] => false | _ => true end.

End Py.

Import Py.

(** ** The regular expressions of [recognize.py] *)

Module Re.

(** [WHITESPACE.sub("", s)] with [WHITESPACE = \s+] *)
Definition whitespace_remove (s : str) : str :=
  List.filter (fun c => negb (is_space c)) s.

(** The class of [PUNCTUATION]: . 。 , ， ? ¿ ？ ! ！ ; ； : ： *)
Definition is_punctuation (c : N) : bool :=
  (c =? 46) || (c =? 12290) || (c =? 44) || (c =? 65292)
  || (c =? 63) || (c =? 191) || (c =? 65311)
  || (c =? 33) || (c =? 65281)
  || (c =? 59) || (c =? 65307) || (c =? 58) || (c =? 65306).

(** [PUNCTUATION.sub(repl, s)]: every maximal run of punctuation becomes
    one [repl]; [in_run] tells that the previous character was
    punctuation. *)
Fixpoint punctuation_sub_from (repl : str) (in_run : bool) (s : str) : str :=
  match s with
  | [] => []
  | c :: rest =>
      if is_punctuation c
      then (if in_run then [] else repl) ++ punctuation_sub_from repl true rest
      else c :: punctuation_sub_from repl false rest
  end.

Definition punctuation_sub (repl s : str) : str :=
  punctuation_sub_from repl false s.

(** An optional minus sign at the head of [s]: whether it is there, and
    what follows it. *)
Definition split_sign (s : str) : bool * str :=
  match s with
  | c :: rest => if c =? 45 then (true, rest) else (false, s)
  | [] => (false, [])
  end.

(** [NUMBER_START.match(s)] with [NUMBER_START = ^(\s*-?[0-9]+)]:
    group 1 of the match, if any. Whitespace, sign and digits are
    disjoint classes, so the greedy match is the only one. *)
Definition number_start_match (s : str) : option str :=
  let spaces := take_while is_space s in
  let '(negative, after_sign) := split_sign (drop_while is_space s) in
  match take_while is_digit after_sign with
  | [] => None
  | digits => Some (spaces ++ (if negative then [45] else []) ++ digits)
  end.

(** The value of a run of decimal digits, most significant first. *)
Definition digits_value (digits : str) : Z :=
  fold_left (fun acc c => (10 * acc + (Z.of_N c - 48))%Z) digits 0%Z.

(** The whitespace that [int] skips: [int] turns the whitespace beyond
    ASCII into spaces and then skips the whitespace of C, which leaves
    out the separators U+001C to U+001F that [\s] accepts. *)
Definition is_int_space (c : N) : bool :=
  is_space c && negb ((28 <=? c) && (c <=? 31)).

(** The most digits that [int] converts: the default limit of CPython
    ([sys.int_info.default_max_str_digits]). *)
Definition int_max_str_digits : nat := 4300.

(** [int(s)] on a string accepted by [NUMBER_START]: leading whitespace
    is skipped, then an optional sign and the digits are read, up to the
    end of the string. [None] stands for [ValueError]: a character that
    [int] does not skip comes first, or there are more digits than the
    limit. *)
Definition int_of_str (s : str) : option Z :=
  let '(negative, after_sign) := split_sign (drop_while is_int_space s) in
  let digits := take_while is_digit after_sign in
  match digits, drop_while is_digit after_sign with
  | _ :: _, [] =>
      if (length digits <=? int_max_str_digits)%nat
      then Some (if negative then (- digits_value digits)%Z
                 else digits_value digits)
      else None
  | _, _ => None
  end.

End Re.

(** ** Values of type [Any] *)

(** The values that slot lists and intent contexts carry: [None],
    integers, strings and lists of values. *)
Inductive Value : Type :=
| VNone
| VInt (n : Z)
| VStr (s : str)
| VList (items : list Value).

Section ValueInduction.

Variable P : Value -> Prop.
Hypothesis P_none : P VNone.
Hypothesis P_int : forall n, P (VInt n).
Hypothesis P_str : forall s, P (VStr s).
Hypothesis P_list : forall items, Forall P items -> P (VList items).

(** Induction on values, with the property at hand for every item of a
    list. *)
Fixpoint Value_nested_ind (v : Value) : P v :=
  match v with
  | VNone => P_none
  | VInt n => P_int n
  | VStr s => P_str s
  | VList items =>
      P_list items
        ((fix all (l : list Value) : Forall P l :=
            match l with
            | [] => List.Forall_nil P
            | x :: l' => @List.Forall_cons Value P x l' (Value_nested_ind x) (all l')
            end) items)
  end.

End ValueInduction.

Module PyValue.

(** [a == b] *)
Fixpoint eq (a b : Value) {struct a} : bool :=
  match a, b with
  | VNone, VNone => true
  | VInt x, VInt y => (x =? y)%Z
  | VStr s, VStr t => bool_decide (s = t)
  | VList xs, VList ys =>
      (fix all_eq (xs ys : list Value) {struct xs} : bool :=
         match xs, ys with
         | [], [] => true
         | x :: xs', y :: ys' => eq x y && all_eq xs' ys'
         | _, _ => false
         end) xs ys
  | _, _ => false
  end.

(** [v is None] *)
Definition is_none (v : Value) : bool :=
  match v with VNone => true | _ => false end.

(** [isinstance(v, collections.abc.Collection)] *)
Definition is_collection (v : Value) : bool :=
  match v with VStr _ | VList _ => true | _ => false end.

(** [isinstance(v, str)] *)
Definition is_str (v : Value) : bool :=
  match v with VStr _ => true | _ => false end.

(** [x in v] for a list [v]; the source guards every use by the two
    [isinstance] tests, so the other cases are never reached. *)
Definition contains (v x : Value) : bool :=
  match v with
  | VList items => existsb (eq x) items
  | _ => false
  end.

End PyValue.

(** ** Expressions ([hassil/expression.py]) and slot lists ([hassil/intents.py]) *)

Module SequenceType.
Inductive t : Set := GROUP | ALTERNATIVE.
End SequenceType.

(** [TextChunk(text)], [Sequence(type, items)],
    [ListReference(list_name, slot_name)], [RuleReference(rule_name)].
    A [Sentence] is the root expression of a template. *)
Inductive Expression : Type :=
| TextChunk (text : str)
| Sequence (type : SequenceType.t) (items : list Expression)
| ListReference (list_name slot_name : str)
| RuleReference (rule_name : str).

(** Modelled from the spec: the property [TextChunk.is_empty] of
    [hassil/expression.py], which is not among the sources. A chunk is
    empty when its text is the empty string, as is the chunk that the
    parser appends for the omitted branch of an optional. *)
Definition is_empty (chunk_text : str) : bool :=
  match chunk_text with [] => true | _ => false end.

(** One value of a [TextSlotList]. *)
Module TextSlotValue.
Record t : Type := mk {
  text_in : Expression;
  value_out : Value;
  context : option (gmap str Value)
}.
End TextSlotValue.

Inductive SlotList : Type :=
| TextSlotList (values : list TextSlotValue.t)
| RangeSlotList (start stop step : Z).

(** ** The data classes of [recognize.py] *)

Module MatchEntity.
Record t : Type := mk {
  name : str;
  value : Value;
  text : str
}.
End MatchEntity.

Module MatchSettings.
Record t : Type := mk {
  slot_lists : gmap str SlotList;
  expansion_rules : gmap str Expression;
  ignore_whitespace : bool
}.
End MatchSettings.

Module MatchContext.
Record t : Type := mk {
  text : str;
  entities : list MatchEntity.t;
  intent_context : gmap str Value;
  is_start_of_word : bool
}.

(** The property [is_match]: nothing but whitespace and punctuation is left. *)
Definition is_match (self : t) : bool :=
  negb (truthy (strip (Re.punctuation_sub [] (text self)))).
End MatchContext.

(** ** Generators *)

Inductive Error : Type :=
| MissingListError (list_name : str)
| MissingRuleError (rule_name : str)
| ValueError
| KeyError.

(** How a generator stops. *)
Inductive Stop : Type :=
| Finished
| Raised (e : Error)
| OutOfFuel.

(** The contexts a generator yields, in order, and how it stops. *)
Abbreviation Gen := (list MatchContext.t * Stop)%type.

Module Gen.

Definition yielded (g : Gen) : list MatchContext.t := fst g.
Definition stop (g : Gen) : Stop := snd g.

(** A generator body that yields nothing, one context, or raises. *)
Definition nothing : Gen := ([], Finished).
Definition yield (c : MatchContext.t) : Gen := ([c], Finished).
Definition raise (e : Error) : Gen := ([], Raised e).

(** Two generator bodies one after the other: the second runs only when
    the first one finishes. *)
Definition seq (g1 g2 : Gen) : Gen :=
  match stop g1 with
  | Finished => (yielded g1 ++ yielded g2, stop g2)
  | _ => g1
  end.

(** [for x in xs: yield from body(x)] *)
Fixpoint for_each {A : Type} (body : A -> Gen) (xs : list A) : Gen :=
  match xs with
  | [] => nothing
  | x :: rest => seq (body x) (for_each body rest)
  end.

(** [for c in g: yield f(c)] *)
Definition map_yield (f : MatchContext.t -> MatchContext.t) (g : Gen) : Gen :=
  (List.map f (yielded g), stop g).

(** The list comprehension [[ic for gc in gcs for ic in body(gc)]]: the
    generators are drained one after the other into a list; the first
    one that does not finish aborts the comprehension. *)
Fixpoint comprehension (body : MatchContext.t -> Gen)
    (gcs : list MatchContext.t) : list MatchContext.t + Stop :=
  match gcs with
  | [] => inl []
  | gc :: rest =>
      match stop (body gc) with
      | Finished =>
          match comprehension body rest with
          | inl more => inl (yielded (body gc) ++ more)
          | inr s => inr s
          end
      | s => inr s
      end
  end.

End Gen.

(** ** The matcher ([match_expression]) *)

Module Recognize.

Import SequenceType.

(** Truth value of a dictionary, and [key in d]. *)
Definition dict_truthy {V : Type} (d : gmap str V) : bool :=
  negb (bool_decide (d = ∅)).
Definition dict_has {V : Type} (key : str) (d : gmap str V) : bool :=
  bool_decide (is_Some (d !! key)).

(** Truth value of an optional dictionary ([slot_value.context]). *)
Definition opt_dict_truthy {V : Type} (d : option (gmap str V)) : bool :=
  match d with
  | Some m => dict_truthy m
  | None => false
  end.

(** [{**a, **b}]: the keys of both, [b] winning on a key of both. *)
Definition dict_merge {V : Type} (a b : gmap str V) : gmap str V := b ∪ a.

(** The whitespace policy that the [TextChunk] branch applies alike to
    the chunk text and to the context text: all whitespace is removed
    when it is ignored; otherwise leading whitespace is dropped at the
    start of a word. *)
Definition adjust (settings : MatchSettings.t) (context : MatchContext.t)
    (s : str) : str :=
  if MatchSettings.ignore_whitespace settings
  then Re.whitespace_remove s
  else if MatchContext.is_start_of_word context
       then lstrip s
       else s.

(** The branch [isinstance(expression, TextChunk)]. *)
Definition match_text_chunk (settings : MatchSettings.t)
    (context : MatchContext.t) (chunk : str) : Gen :=
  let chunk_text := adjust settings context chunk in
  let context_text := adjust settings context (MatchContext.text context) in
  if is_empty chunk
  then Gen.yield context
  else if startswith context_text chunk_text
  then Gen.yield
         (MatchContext.mk
            (slice_from (length chunk_text) context_text)
            (MatchContext.entities context)
            (MatchContext.intent_context context)
            (endswith_space chunk))
  else if isspace chunk_text
  then Gen.yield
         (MatchContext.mk
            context_text
            (MatchContext.entities context)
            (MatchContext.intent_context context)
            true)
  else
    let context_text :=
      lstrip (Re.punctuation_sub [32] (MatchContext.text context)) in
    if startswith context_text chunk_text
    then Gen.yield
           (MatchContext.mk
              (slice_from (length chunk_text) context_text)
              (MatchContext.entities context)
              (MatchContext.intent_context context)
              (MatchContext.is_start_of_word context))
    else Gen.nothing.

(** [word_number in range(start, stop + 1, step)]; [range] raises
    [ValueError] when [step] is zero. *)
Definition in_py_range (start stop_excl step n : Z) : option bool :=
  if (step =? 0)%Z then None
  else if (0 <? step)%Z
  then Some ((start <=? n)%Z && (n <? stop_excl)%Z
             && ((n - start) mod step =? 0)%Z)
  else Some ((n <=? start)%Z && (stop_excl <? n)%Z
             && ((n - start) mod step =? 0)%Z).

(** The branch of a [RangeSlotList]. *)
Definition match_range (context : MatchContext.t) (slot_name : str)
    (start stop step : Z) : Gen :=
  if truthy (MatchContext.text context) then
    match Re.number_start_match (MatchContext.text context) with
    | Some number_text =>
        match Re.int_of_str number_text with
        | None => Gen.raise ValueError
        | Some word_number =>
            let in_range :=
              if (step =? 1)%Z
              then Some ((start <=? word_number)%Z && (word_number <=? stop)%Z)
              else in_py_range start (stop + 1) step word_number in
            match in_range with
            | None => Gen.raise ValueError
            | Some true =>
                let entities :=
                  MatchContext.entities context
                  ++ [MatchEntity.mk slot_name (VInt word_number)
                        (first_token (MatchContext.text context))] in
                Gen.yield
                  (MatchContext.mk
                     (slice_from (length number_text)
                        (MatchContext.text context))
                     entities
                     (MatchContext.intent_context context)
                     (MatchContext.is_start_of_word context))
            | Some false => Gen.nothing
            end
        end
    | None => Gen.nothing
    end
  else Gen.nothing.

(** What one context yielded by a slot value's [text_in] becomes. *)
Definition capture (context : MatchContext.t) (slot_name : str)
    (slot_value : TextSlotValue.t) (value_context : MatchContext.t)
    : MatchContext.t :=
  let entities :=
    MatchContext.entities context
    ++ [MatchEntity.mk slot_name (TextSlotValue.value_out slot_value)
          (if truthy (MatchContext.text value_context)
           then slice_to_neg (length (MatchContext.text value_context))
                  (MatchContext.text context)
           else MatchContext.text context)] in
  if opt_dict_truthy (TextSlotValue.context slot_value)
  then MatchContext.mk
         (MatchContext.text value_context)
         entities
         (dict_merge (MatchContext.intent_context context)
            (default ∅ (TextSlotValue.context slot_value)))
         (MatchContext.is_start_of_word context)
  else MatchContext.mk
         (MatchContext.text value_context)
         entities
         (MatchContext.intent_context value_context)
         (MatchContext.is_start_of_word context).

(** The loop of the [GROUP] branch over [seq.items], from the working
    list [group_contexts]; [step] matches one item from one context. *)
Fixpoint group_loop (step : MatchContext.t -> Expression -> Gen)
    (items : list Expression) (group_contexts : list MatchContext.t)
    : list MatchContext.t + Stop :=
  match items with
  | [] => inl group_contexts
  | item :: rest =>
      match Gen.comprehension (fun group_context => step group_context item)
              group_contexts with
      | inl [] => inl []
      | inl group_contexts' => group_loop step rest group_contexts'
      | inr s => inr s
      end
  end.

(** [match_expression(settings, context, expression)]; every call uses
    one unit of [fuel]. *)
Fixpoint match_expression (fuel : nat) (settings : MatchSettings.t)
    (context : MatchContext.t) (expression : Expression) : Gen :=
  match fuel with
  | O => ([], OutOfFuel)
  | S fuel =>
      match expression with
      | TextChunk chunk => match_text_chunk settings context chunk
      | Sequence ALTERNATIVE items =>
          Gen.for_each (match_expression fuel settings context) items
      | Sequence GROUP items =>
          match items with
          | [] => Gen.nothing
          | _ :: _ =>
              match group_loop (match_expression fuel settings) items [context] with
              | inl group_contexts => (group_contexts, Finished)
              | inr s => ([], s)
              end
          end
      | ListReference list_name slot_name =>
          if negb (dict_truthy (MatchSettings.slot_lists settings))
             || negb (dict_has list_name (MatchSettings.slot_lists settings))
          then Gen.raise (MissingListError list_name)
          else
            match MatchSettings.slot_lists settings !! list_name with
            | None => Gen.raise KeyError
            | Some (TextSlotList values) =>
                if truthy (MatchContext.text context) then
                  Gen.for_each
                    (fun slot_value =>
                       Gen.map_yield (capture context slot_name slot_value)
                         (match_expression fuel settings
                            (MatchContext.mk
                               (MatchContext.text context)
                               (MatchContext.entities context)
                               (MatchContext.intent_context context)
                               (MatchContext.is_start_of_word context))
                            (TextSlotValue.text_in slot_value)))
                    values
                else Gen.nothing
            | Some (RangeSlotList start stop step) =>
                match_range context slot_name start stop step
            end
      | RuleReference rule_name =>
          if negb (dict_truthy (MatchSettings.expansion_rules settings))
             || negb (dict_has rule_name (MatchSettings.expansion_rules settings))
          then Gen.raise (MissingRuleError rule_name)
          else
            match MatchSettings.expansion_rules settings !! rule_name with
            | None => Gen.raise KeyError
            | Some rule => match_expression fuel settings context rule
            end
      end
  end.

End Recognize.

(** ** The context predicates of [recognize_all] *)

Module IntentData.
(** The fields of [IntentData] ([hassil/intents.py]) that the matching
    loop reads; the two context dictionaries are given by their items. *)
Record t : Type := mk {
  sentences : list Expression;
  slots : list (str * Value);
  requires_context : list (str * Value);
  excludes_context : list (str * Value)
}.
End IntentData.

Module Driver.

(** [d.get(key)]: the value, or [None] for an absent key. *)
Definition dict_get (d : gmap str Value) (key : str) : Value :=
  default VNone (d !! key).

(** The loop over [intent_data.excludes_context.items()]; the result is
    [skip_match]. *)
Fixpoint excludes_loop (intent_context : gmap str Value)
    (items : list (str * Value)) : bool :=
  match items with
  | [] => false
  | (context_key, context_value) :: rest =>
      let actual_value := dict_get intent_context context_key in
      if PyValue.eq actual_value context_value then true
      else if PyValue.is_collection context_value
              && negb (PyValue.is_str context_value)
              && PyValue.contains context_value actual_value
      then true
      else excludes_loop intent_context rest
  end.

(** The loop over [intent_data.requires_context.items()]; the result is
    [skip_match]. *)
Fixpoint requires_loop (intent_context : gmap str Value)
    (items : list (str * Value)) : bool :=
  match items with
  | [] => false
  | (context_key, context_value) :: rest =>
      let actual_value := dict_get intent_context context_key in
      if PyValue.eq actual_value context_value
         && negb (PyValue.is_none context_value)
      then requires_loop intent_context rest
      else if PyValue.is_none context_value
              && negb (PyValue.is_none actual_value)
      then requires_loop intent_context rest
      else if PyValue.is_collection context_value
              && negb (PyValue.is_str context_value)
              && PyValue.contains context_value actual_value
      then requires_loop intent_context rest
      else true
  end.

(** Truth value of a dictionary given by its items. *)
Definition items_truthy (items : list (str * Value)) : bool :=
  match items with [] => false | _ => true end.

(** The value of [skip_match] once both context checks have run on a
    candidate [maybe_match_context]. *)
Definition skip_match (intent_data : IntentData.t)
    (maybe_match_context : MatchContext.t) : bool :=
  let intent_context := MatchContext.intent_context maybe_match_context in
  let skip_match :=
    if items_truthy (IntentData.excludes_context intent_data)
    then excludes_loop intent_context (IntentData.excludes_context intent_data)
    else false in
  if negb skip_match && items_truthy (IntentData.requires_context intent_data)
  then requires_loop intent_context (IntentData.requires_context intent_data)
  else skip_match.

(** A candidate context leads to a [RecognizeResult] when it is a match
    and is not skipped. *)
Definition accepted (intent_data : IntentData.t)
    (maybe_match_context : MatchContext.t) : bool :=
  MatchContext.is_match maybe_match_context
  && negb (skip_match intent_data maybe_match_context).

End Driver.

(** ** The expression parser ([parse_expression.py]) *)

Module ParseType.
(** The members of [ParseType] ([hassil/parser.py]) that the sources
    name: [parse_group_or_alt] names [SLOT], [parse_expression] names
    [LIST]. *)
Inductive t : Set := WORD | GROUP | OPT | ALT | RULE | SLOT | LIST.

Definition eqb (a b : t) : bool :=
  match a, b with
  | WORD, WORD | GROUP, GROUP | OPT, OPT | ALT, ALT
  | RULE, RULE | SLOT, SLOT | LIST, LIST => true
  | _, _ => false
  end.
End ParseType.

Module ParseChunk.
Record t : Type := mk {
  parse_type : ParseType.t;
  text : str;
  end_index : nat
}.
End ParseChunk.

(** The delimiters of [hassil/parser.py]. *)
Definition GROUP_START : N := 40.
Definition GROUP_END : N := 41.
Definition OPT_START : N := 91.
Definition OPT_END : N := 93.
Definition LIST_START : N := 123.
Definition LIST_END : N := 125.
Definition RULE_START : N := 60.
Definition RULE_END : N := 62.
Definition ALT_SEP : N := 124.
Definition ESCAPE : N := 92.

(** The outcome of parsing. *)
Inductive Parsed (A : Type) : Type :=
| Ok (a : A)
| ParseExpressionError (chunk : ParseChunk.t)
| ParseError
| ParseOutOfFuel.
Arguments Ok {A} a.
Arguments ParseExpressionError {A} chunk.
Arguments ParseError {A}.
Arguments ParseOutOfFuel {A}.

Module ParseExpression.

Import SequenceType.

(** A [Sequence] under construction: its type and its items. *)
Abbreviation Seq := (SequenceType.t * list Expression)%type.

Definition to_expression (seq : Seq) : Expression :=
  Sequence (fst seq) (snd seq).

(** [ensure_alternative(seq)] *)
Definition ensure_alternative (seq : Seq) : Seq :=
  match fst seq with
  | ALTERNATIVE => seq
  | GROUP => (ALTERNATIVE, [Sequence GROUP (snd seq)])
  end.

(** [seq.items.append(item)] *)
Definition append_item (seq : Seq) (item : Expression) : Seq :=
  (fst seq, snd seq ++ [item]).

(** The statements that add [item] to an [ALTERNATIVE]: a first group is
    opened if there is none, and the item goes to the last one, which
    has to be a [Sequence]. *)
Definition append_to_last (items : list Expression) (item : Expression)
    : option (list Expression) :=
  let items := match items with
               | [] => [Sequence GROUP []]
               | _ => items
               end in
  match last items with
  | Some (Sequence type last_items) =>
      Some (removelast items ++ [Sequence type (last_items ++ [item])])
  | _ => None
  end.

(** Modelled from the spec: the constructor of [ListReference]
    ([hassil/expression.py], which is not among the sources) on the name
    alone, as [parse_expression] calls it. A name that holds a colon is
    [list_name:slot_name], cut at the first colon; otherwise the slot is
    named after the list. *)
Definition list_reference (name : str) : Expression :=
  let not_colon := fun c => negb (c =? 58) in
  match drop_while not_colon name with
  | [] => ListReference name name
  | _ :: slot_name => ListReference (take_while not_colon name) slot_name
  end.

Section Parser.

(** The two helpers of [hassil/parser.py] that the parser calls and that
    are not among the sources: the tokenizer, which may fail, and the
    removal of the first and last character of a delimited chunk. *)
Variable next_chunk : str -> Parsed (option ParseChunk.t).
Variable remove_delimiters : str -> N -> N -> str.

Fixpoint parse_expression (fuel : nat) (chunk : ParseChunk.t)
    {struct fuel} : Parsed Expression :=
  match fuel with
  | O => ParseOutOfFuel
  | S fuel =>
      match ParseChunk.parse_type chunk with
      | ParseType.WORD => Ok (TextChunk (ParseChunk.text chunk))
      | ParseType.GROUP =>
          match parse_group_or_alt fuel chunk with
          | Ok seq => Ok (to_expression seq)
          | ParseExpressionError c => ParseExpressionError c
          | ParseError => ParseError
          | ParseOutOfFuel => ParseOutOfFuel
          end
      | ParseType.OPT =>
          match parse_group_or_alt fuel chunk with
          | Ok seq =>
              Ok (to_expression
                    (append_item (ensure_alternative seq) (TextChunk [])))
          | ParseExpressionError c => ParseExpressionError c
          | ParseError => ParseError
          | ParseOutOfFuel => ParseOutOfFuel
          end
      | ParseType.LIST =>
          Ok (list_reference
                (remove_delimiters (ParseChunk.text chunk) LIST_START LIST_END))
      | ParseType.RULE =>
          let rule_name :=
            remove_delimiters (ParseChunk.text chunk) RULE_START RULE_END in
          Ok (RuleReference rule_name)
      | _ => ParseExpressionError chunk
      end
  end

with parse_group_or_alt (fuel : nat) (seq_chunk : ParseChunk.t)
    {struct fuel} : Parsed Seq :=
  match fuel with
  | O => ParseOutOfFuel
  | S fuel =>
      let seq := (GROUP, []) in
      match ParseChunk.parse_type seq_chunk with
      | ParseType.GROUP =>
          let seq_text :=
            remove_delimiters (ParseChunk.text seq_chunk) GROUP_START GROUP_END in
          match next_chunk seq_text with
          | Ok item_chunk => parse_items fuel seq_chunk seq seq_text item_chunk
          | _ => ParseError
          end
      | ParseType.OPT =>
          let seq_text :=
            remove_delimiters (ParseChunk.text seq_chunk) OPT_START OPT_END in
          match next_chunk seq_text with
          | Ok item_chunk => parse_items fuel seq_chunk seq seq_text item_chunk
          | _ => ParseError
          end
      | _ => ParseExpressionError seq_chunk
      end
  end

(** The [while] loop of [parse_group_or_alt], entered with the chunk
    that [next_chunk] returned on [seq_text]; [last_seq_text] is
    [seq_text] at this point. *)
with parse_items (fuel : nat) (seq_chunk : ParseChunk.t) (seq : Seq)
    (seq_text : str) (item_chunk : option ParseChunk.t)
    {struct fuel} : Parsed Seq :=
  match fuel with
  | O => ParseOutOfFuel
  | S fuel =>
      match item_chunk with
      | None => Ok seq
      | Some item_chunk =>
          let last_seq_text := seq_text in
          let next_iteration (seq : Seq) : Parsed Seq :=
            let seq_text := drop (ParseChunk.end_index item_chunk) seq_text in
            let seq_text := lstrip seq_text in
            if bool_decide (seq_text = last_seq_text)
            then ParseExpressionError seq_chunk
            else
              match next_chunk seq_text with
              | Ok item_chunk => parse_items fuel seq_chunk seq seq_text item_chunk
              | _ => ParseError
              end in
          match ParseChunk.parse_type item_chunk with
          | ParseType.WORD | ParseType.GROUP | ParseType.OPT
          | ParseType.SLOT | ParseType.RULE =>
              match parse_expression fuel item_chunk with
              | Ok item =>
                  match fst seq with
                  | ALTERNATIVE =>
                      match append_to_last (snd seq) item with
                      | Some items => next_iteration (ALTERNATIVE, items)
                      | None => ParseExpressionError seq_chunk
                      end
                  | GROUP => next_iteration (append_item seq item)
                  end
              | ParseExpressionError c => ParseExpressionError c
              | ParseError => ParseError
              | ParseOutOfFuel => ParseOutOfFuel
              end
          | ParseType.ALT =>
              next_iteration
                (append_item (ensure_alternative seq) (Sequence GROUP []))
          | _ => ParseExpressionError seq_chunk
          end
      end
  end.

End Parser.

End ParseExpression.

(** ** The tokenizer ([hassil/parser.py]) *)

Module Parser.

(** ASCII whitespace. *)
Definition is_ascii_space (c : N) : bool :=
  ((9 <=? c) && (c <=? 13)) || (c =? 32).

(** The characters that end a WORD: the delimiters and the separator. *)
Definition is_delimiter (c : N) : bool :=
  (c =? GROUP_START) || (c =? GROUP_END) || (c =? OPT_START) || (c =? OPT_END)
  || (c =? LIST_START) || (c =? LIST_END) || (c =? RULE_START)
  || (c =? RULE_END) || (c =? ALT_SEP).

(** The offset just after the closer that matches an opener already
    read, [offset] characters before [s]; [depth] counts the openers of
    the same kind that are still open inside. An escaped character is
    skipped. [None]: the region is not closed, or an escape is the last
    character. *)
Fixpoint find_end_delimiter (start_char end_char : N) (depth offset : nat)
    (s : str) : option nat :=
  match s with
  | [] => None
  | c :: rest =>
      if c =? ESCAPE then
        match rest with
        | [] => None
        | _ :: rest' =>
            find_end_delimiter start_char end_char depth (offset + 2) rest'
        end
      else if c =? end_char then
        match depth with
        | O => Some (offset + 1)%nat
        | S depth' =>
            find_end_delimiter start_char end_char depth' (offset + 1) rest
        end
      else if c =? start_char then
        find_end_delimiter start_char end_char (S depth) (offset + 1) rest
      else find_end_delimiter start_char end_char depth (offset + 1) rest
  end.

(** The offset of the first unescaped delimiter or separator of [s], or
    of its end. [None]: an escape is the last character. *)
Fixpoint find_end_word (offset : nat) (s : str) : option nat :=
  match s with
  | [] => Some offset
  | c :: rest =>
      if c =? ESCAPE then
        match rest with
        | [] => None
        | _ :: rest' => find_end_word (offset + 2) rest'
        end
      else if is_delimiter c then Some offset
      else find_end_word (offset + 1) rest
  end.

(** Modelled from the spec: [remove_escapes] of [hassil/parser.py],
    which is not among the sources. A backslash escapes the next
    character: the backslash goes and the character stays. *)
Fixpoint remove_escapes (s : str) : str :=
  match s with
  | [] => []
  | c :: rest =>
      if c =? ESCAPE then
        match rest with
        | [] => [c]
        | escaped :: rest' => escaped :: remove_escapes rest'
        end
      else c :: remove_escapes rest
  end.

(** A chunk delimited by [start_char] and [end_char] at the head of
    [text]; its text keeps the delimiters. *)
Definition delimited (parse_type : ParseType.t) (start_char end_char : N)
    (text : str) : Parsed (option ParseChunk.t) :=
  match find_end_delimiter start_char end_char 0 1 (drop 1 text) with
  | Some end_index =>
      Ok (Some (ParseChunk.mk parse_type (take end_index text) end_index))
  | None => ParseError
  end.

(** Modelled from the spec: [next_chunk] of [hassil/parser.py], which is
    not among the sources. It returns the next top-level chunk of
    [text], or none when [text] is exhausted. A chunk that starts with an
    opening delimiter extends to its matching closer; the separator is a
    chunk of its own; anything else begins a WORD, whose leading ASCII
    whitespace is skipped and which runs up to the next unescaped
    delimiter or separator; an escaped character is part of the WORD,
    the backslash that escapes it is not. Unbalanced delimiters, a
    trailing escape and a closer with nothing open are errors. *)
Definition next_chunk (text : str) : Parsed (option ParseChunk.t) :=
  match text with
  | [] => Ok None
  | c :: _ =>
      if c =? GROUP_START then delimited ParseType.GROUP GROUP_START GROUP_END text
      else if c =? OPT_START then delimited ParseType.OPT OPT_START OPT_END text
      else if c =? LIST_START then delimited ParseType.LIST LIST_START LIST_END text
      else if c =? RULE_START then delimited ParseType.RULE RULE_START RULE_END text
      else if c =? ALT_SEP then Ok (Some (ParseChunk.mk ParseType.ALT [ALT_SEP] 1))
      else if is_delimiter c then ParseError
      else
        let skipped := length (take_while is_ascii_space text) in
        match find_end_word skipped (drop skipped text) with
        | Some end_index =>
            Ok (Some (ParseChunk.mk ParseType.WORD
                        (remove_escapes (drop skipped (take end_index text)))
                        end_index))
        | None => ParseError
        end
  end.

(** Modelled from the spec: [remove_delimiters] of [hassil/parser.py],
    which is not among the sources. The parser strips the delimiters of
    a delimited chunk: its first and its last character. *)
Definition remove_delimiters (text : str) (start_char end_char : N) : str :=
  removelast (drop 1 text).

(** The parser of the sources on this tokenizer. *)
Definition parse_expression (fuel : nat) (chunk : ParseChunk.t)
    : Parsed Expression :=
  ParseExpression.parse_expression next_chunk remove_delimiters fuel chunk.

(** The expression of a whole chunk of grammar text: its first chunk,
    parsed. *)
Definition parse_text (fuel : nat) (text : str) : Parsed Expression :=
  match next_chunk text with
  | Ok (Some chunk) => parse_expression fuel chunk
  | Ok None => ParseError
  | _ => ParseError
  end.

End Parser.


(** ** Notions used in the statements *)

Module Spec.

Import Recognize.

(** The integers a [RangeSlotList] accepts, as the specification states
    it: [start <= n <= stop], and [(n - start) mod step = 0] unless the
    step is one. *)
Definition range_accepts (start stop step n : Z) : bool :=
  (start <=? n)%Z && (n <=? stop)%Z
  && ((step =? 1)%Z || ((n - start) mod step =? 0)%Z).

(** What stops a scan: the end of the string or a character outside [p]. *)
Definition stops (p : N -> bool) (s : str) : bool :=
  match s with
  | [] => true
  | c :: _ => negb (p c)
  end.

(** A signed number: the sign, if any, then the digits. *)
Definition signed (negative : bool) (digits : str) : str :=
  (if negative then [45] else []) ++ digits.

(** When a required value [required] is met by the value [actual] found
    in the intent context, as the specification states it: (a) any value
    is required and one is set, (b) the required value, which is not
    null, is the one found, (c) the required value is a collection, not
    a string, that holds the one found. *)
Definition requirement_met (required actual : Value) : Prop :=
  (required = VNone /\ actual <> VNone)
  \/ (actual = required /\ required <> VNone)
  \/ (exists items, required = VList items /\ In actual items).

(** What the way a generator stops says about the settings: a missing
    list or rule error names a list or rule that the settings lack, and
    a lookup never fails after its guard. *)
Definition sound (settings : MatchSettings.t) (s : Stop) : Prop :=
  match s with
  | Raised (MissingListError list_name) =>
      MatchSettings.slot_lists settings !! list_name = None
  | Raised (MissingRuleError rule_name) =>
      MatchSettings.expansion_rules settings !! rule_name = None
  | Raised KeyError => False
  | _ => True
  end.

End Spec.

(** ** Settings, contexts and intents of the examples *)

Module Examples.

Import SequenceType.

(** Settings without lists or rules, whitespace kept. *)
Definition no_settings : MatchSettings.t := MatchSettings.mk ∅ ∅ false.

(** The context at the start of the input [t]. *)
Definition at_start (t : string) : MatchContext.t :=
  MatchContext.mk (lit t) [] ∅ true.

(** Settings whose list [name] holds one value, the empty chunk, which
    matches the empty string wherever it is tried. *)
Definition empty_value_settings : MatchSettings.t :=
  MatchSettings.mk
    {[ lit "name" := TextSlotList [TextSlotValue.mk (TextChunk []) VNone None] ]}
    ∅ false.

(** Settings with the list [percent] of the multiples of five up to one
    hundred. *)
Definition percent_settings : MatchSettings.t :=
  MatchSettings.mk {[ lit "percent" := RangeSlotList 0 100 5 ]} ∅ false.

(** Settings with the list [area] and the rule [place], which refers to
    the list [room] that the settings lack. *)
Definition area_settings : MatchSettings.t :=
  MatchSettings.mk
    {[ lit "area" :=
         TextSlotList [TextSlotValue.mk (TextChunk (lit "kitchen"))
                         (VStr (lit "kitchen")) None] ]}
    {[ lit "place" :=
         Sequence GROUP
           [TextChunk (lit "in "); ListReference (lit "room") (lit "room")] ]}
    false.

(** An intent whose excluded context maps [area] to null. *)
Definition needs_area : IntentData.t :=
  IntentData.mk [] [] [] [(lit "area", VNone)].

(** An intent that requires some [area], and the kitchen or the hall as
    [room]. *)
Definition requires_area : IntentData.t :=
  IntentData.mk [] []
    [(lit "area", VNone);
     (lit "room", VList [VStr (lit "kitchen"); VStr (lit "hall")])]
    [].

End Examples.

(** ** The entry point [is_match] and the helpers of [recognize.py] *)

Module Helpers.

(** [WHITESPACE.sub(repl, s)]: every maximal run of whitespace becomes
    one [repl]; [in_run] tells that the previous character was
    whitespace. *)
Fixpoint whitespace_sub_from (repl : str) (in_run : bool) (s : str) : str :=
  match s with
  | [] => []
  | c :: rest =>
      if is_space c
      then (if in_run then [] else repl) ++ whitespace_sub_from repl true rest
      else c :: whitespace_sub_from repl false rest
  end.

(** [_normalize_whitespace(text)] *)
Definition _normalize_whitespace (text : str) : str :=
  whitespace_sub_from [32] false text.

(** [sorted(words, key=len, reverse=True)]: longest first, words of one
    length in their order of arrival. *)
Fixpoint insert_by_length (word : str) (sorted : list str) : list str :=
  match sorted with
  | [] => [word]
  | other :: rest =>
      if (length other <=? length word)%nat
      then word :: sorted
      else other :: insert_by_length word rest
  end.

Definition sorted_longest_first (words : list str) : list str :=
  fold_right insert_by_length [] words.

(** What the loop [for c in contexts: if c.is_match: return c] followed
    by [return None] comes to. *)
Inductive Outcome : Type :=
| Match (c : MatchContext.t)
| NoMatch
| Fails (e : Error)
| Diverges.

(** The loop over a generator: the first context that is a match ends
    it, and the generator is not resumed; otherwise the way the
    generator stops decides. *)
Definition first_match (g : Gen) : Outcome :=
  match find MatchContext.is_match (Gen.yielded g) with
  | Some c => Match c
  | None =>
      match Gen.stop g with
      | Finished => NoMatch
      | Raised e => Fails e
      | OutOfFuel => Diverges
      end
  end.

Section EntryPoint.

(** The helpers of [hassil/util.py], which is not among the sources, and
    the substitution [re.sub(rf"\b{re.escape(word)}\b", "", text)] of
    the regular expression engine, whose word boundaries follow the
    Unicode classes of letters and digits. *)
Variable normalize_text : str -> str.
Variable normalize_whitespace : str -> str.
Variable remove_whole_word : str -> str -> str.

(** [_remove_skip_words(text, skip_words)] *)
Definition _remove_skip_words (text : str) (skip_words : list str) : str :=
  let text :=
    fold_left
      (fun text skip_word => remove_whole_word (normalize_text skip_word) text)
      (sorted_longest_first skip_words) text in
  let text := normalize_whitespace text in
  strip text.

(** [is_match(text, sentence, slot_lists, expansion_rules, skip_words,
    entities, intent_context, ignore_whitespace)]; an argument left out
    is [None], and [skip_words] left out is the empty list. The argument
    [entities] is not read. *)
Definition is_match (fuel : nat) (text : str) (sentence : Expression)
    (slot_lists : option (gmap str SlotList))
    (expansion_rules : option (gmap str Expression))
    (skip_words : list str)
    (intent_context : option (gmap str Value))
    (ignore_whitespace : bool) : Outcome :=
  let text := strip (normalize_text text) in
  let text :=
    match skip_words with
    | [] => text
    | _ => _remove_skip_words text skip_words
    end in
  let text :=
    if ignore_whitespace
    then Re.whitespace_remove text
    else text ++ [32] in
  let settings :=
    MatchSettings.mk (default ∅ slot_lists) (default ∅ expansion_rules)
      ignore_whitespace in
  let match_context := MatchContext.mk text [] (default ∅ intent_context) true in
  first_match (Recognize.match_expression fuel settings match_context sentence).

End EntryPoint.

End Helpers.

(** ** The shape of expressions *)

Module Shape.

(** An expression without list or rule references. *)
Fixpoint reference_free (e : Expression) : bool :=
  match e with
  | TextChunk _ => true
  | Sequence _ items => forallb reference_free items
  | ListReference _ _ => false
  | RuleReference _ => false
  end.

(** The nesting depth of an expression. *)
Fixpoint depth (e : Expression) : nat :=
  match e with
  | Sequence _ items => S (list_max (List.map depth items))
  | _ => O
  end.

(** The contexts that a group yields from each context of a list, one
    after the other. *)
Definition from_each (fuel : nat) (settings : MatchSettings.t)
    (items : list Expression) (mids : list MatchContext.t)
    : list MatchContext.t :=
  concat
    (List.map
       (fun mid =>
          Gen.yielded
            (Recognize.match_expression fuel settings mid
               (Sequence SequenceType.GROUP items)))
       mids).

(** All the items are groups. *)
Definition all_groups (items : list Expression) : Prop :=
  Forall (fun item => exists inner, item = Sequence SequenceType.GROUP inner)
    items.

End Shape.

(** ** More notions used in the statements *)

Module Notions.

Import SequenceType Shape ParseExpression.

(** A character that the final test lets pass: whitespace or punctuation. *)
Definition is_filler (c : N) : bool := is_space c || Re.is_punctuation c.

(** When a value [excluded] excludes the value [actual] found in the
    intent context: it is that value, or a collection, not a string,
    that holds it. *)
Definition exclusion_hit (excluded actual : Value) : Prop :=
  actual = excluded
  \/ (exists held, excluded = VList held /\ In actual held).

(** What the loop of [parse_group_or_alt] keeps true of the sequence it
    builds: an alternative has at least one branch, and its branches
    are groups. *)
Definition well_formed (seq : Seq) : Prop :=
  fst seq = ALTERNATIVE -> snd seq <> [] /\ all_groups (snd seq).

(** A string in which every whitespace character is a single space that
    follows no other whitespace; [after_space] tells that the string
    comes after whitespace. *)
Fixpoint normalized (after_space : bool) (s : str) : bool :=
  match s with
  | [] => true
  | c :: rest =>
      if is_space c
      then (c =? 32) && negb after_space && normalized true rest
      else normalized false rest
  end.

End Notions.

(** ** More settings and contexts of the examples *)

Module MoreExamples.

Import SequenceType Examples.

(** A context with an entity and an intent context, before and after
    the list [area] matched the kitchen. *)
Definition kitchen_context : MatchContext.t :=
  MatchContext.mk (lit "kitchen now")
    [MatchEntity.mk (lit "domain") (VStr (lit "light")) []]
    {[ lit "domain" := VStr (lit "light") ]} true.

Definition kitchen_matched : MatchContext.t :=
  MatchContext.mk (lit " now")
    [MatchEntity.mk (lit "domain") (VStr (lit "light")) [];
     MatchEntity.mk (lit "area") (VStr (lit "kitchen")) (lit "kitchen")]
    {[ lit "domain" := VStr (lit "light") ]} true.

(** Settings whose list [level] is a range with the step zero, and
    settings whose list [countdown] runs down from ten. *)
Definition zero_step_settings : MatchSettings.t :=
  MatchSettings.mk {[ lit "level" := RangeSlotList 0 10 0 ]} ∅ false.

Definition countdown_settings : MatchSettings.t :=
  MatchSettings.mk {[ lit "countdown" := RangeSlotList 10 0 (-1) ]} ∅ false.

(** Settings whose rule [loop] refers to itself. *)
Definition loop_settings : MatchSettings.t :=
  MatchSettings.mk ∅ {[ lit "loop" := RuleReference (lit "loop") ]} false.

(** The template [turn (on|off)] as an expression. *)
Definition turn_on_off : Expression :=
  Sequence GROUP
    [TextChunk (lit "turn ");
     Sequence ALTERNATIVE
       [Sequence GROUP [TextChunk (lit "on")];
        Sequence GROUP [TextChunk (lit "off")]]].

(** Settings whose list [scene] holds the movie scene, which sets the
    mode of the intent context, and a context that has a mode. *)
Definition scene_settings : MatchSettings.t :=
  MatchSettings.mk
    {[ lit "scene" :=
         TextSlotList
           [TextSlotValue.mk (TextChunk (lit "movie")) (VStr (lit "movie"))
              (Some {[ lit "mode" := VStr (lit "dark") ]})] ]}
    ∅ false.

Definition bright_context : MatchContext.t :=
  MatchContext.mk (lit "movie") []
    {[ lit "mode" := VStr (lit "bright"); lit "user" := VStr (lit "ann") ]}
    true.

Definition movie_matched : MatchContext.t :=
  MatchContext.mk [] 
    [MatchEntity.mk (lit "scene") (VStr (lit "movie")) (lit "movie")]
    ({[ lit "mode" := VStr (lit "dark") ]}
     ∪ {[ lit "mode" := VStr (lit "bright"); lit "user" := VStr (lit "ann") ]})
    true.

(** The same requirements and exclusions in two orders. *)
Definition two_keys : IntentData.t :=
  IntentData.mk [] []
    [(lit "area", VNone); (lit "room", VStr (lit "hall"))]
    [(lit "mode", VStr (lit "off")); (lit "user", VNone)].

Definition two_keys_swapped : IntentData.t :=
  IntentData.mk [] []
    [(lit "room", VStr (lit "hall")); (lit "area", VNone)]
    [(lit "user", VNone); (lit "mode", VStr (lit "off"))].

End MoreExamples.

(** ** The branches of the matcher that call it again *)

Module Branches.

Import Recognize.

(** The branch of a list reference, given the matcher [again] that it
    calls on the values of a list of texts. *)
Definition list_reference (again : MatchContext.t -> Expression -> Gen)
    (settings : MatchSettings.t) (context : MatchContext.t)
    (list_name slot_name : str) : Gen :=
  if negb (dict_truthy (MatchSettings.slot_lists settings))
     || negb (dict_has list_name (MatchSettings.slot_lists settings))
  then Gen.raise (MissingListError list_name)
  else
    match MatchSettings.slot_lists settings !! list_name with
    | None => Gen.raise KeyError
    | Some (TextSlotList values) =>
        if truthy (MatchContext.text context) then
          Gen.for_each
            (fun slot_value =>
               Gen.map_yield (capture context slot_name slot_value)
                 (again
                    (MatchContext.mk
                       (MatchContext.text context)
                       (MatchContext.entities context)
                       (MatchContext.intent_context context)
                       (MatchContext.is_start_of_word context))
                    (TextSlotValue.text_in slot_value)))
            values
        else Gen.nothing
    | Some (RangeSlotList start stop step) =>
        match_range context slot_name start stop step
    end.

(** The branch of a rule reference, given the matcher [again] that it
    calls on the rule. *)
Definition rule_reference (again : MatchContext.t -> Expression -> Gen)
    (settings : MatchSettings.t) (context : MatchContext.t)
    (rule_name : str) : Gen :=
  if negb (dict_truthy (MatchSettings.expansion_rules settings))
     || negb (dict_has rule_name (MatchSettings.expansion_rules settings))
  then Gen.raise (MissingRuleError rule_name)
  else
    match MatchSettings.expansion_rules settings !! rule_name with
    | None => Gen.raise KeyError
    | Some rule => again context rule
    end.

End Branches.

(** ** The bodies of the parser, given the calls they make *)

Module ParserBodies.

Import SequenceType ParseExpression.

(** One turn of the loop of [parse_group_or_alt] on the chunk
    [item_chunk], given the parser [parse_item] of an item and the rest
    of the loop [continue]. *)
Definition items_turn (next_chunk : str -> Parsed (option ParseChunk.t))
    (parse_item : ParseChunk.t -> Parsed Expression)
    (continue : Seq -> str -> option ParseChunk.t -> Parsed Seq)
    (seq_chunk : ParseChunk.t) (seq : Seq) (seq_text : str)
    (item_chunk : ParseChunk.t) : Parsed Seq :=
  let last_seq_text := seq_text in
  let next_iteration (seq : Seq) : Parsed Seq :=
    let seq_text := drop (ParseChunk.end_index item_chunk) seq_text in
    let seq_text := lstrip seq_text in
    if bool_decide (seq_text = last_seq_text)
    then ParseExpressionError seq_chunk
    else
      match next_chunk seq_text with
      | Ok item_chunk => continue seq seq_text item_chunk
      | _ => ParseError
      end in
  match ParseChunk.parse_type item_chunk with
  | ParseType.WORD | ParseType.GROUP | ParseType.OPT
  | ParseType.SLOT | ParseType.RULE =>
      match parse_item item_chunk with
      | Ok item =>
          match fst seq with
          | ALTERNATIVE =>
              match append_to_last (snd seq) item with
              | Some items => next_iteration (ALTERNATIVE, items)
              | None => ParseExpressionError seq_chunk
              end
          | GROUP => next_iteration (append_item seq item)
          end
      | ParseExpressionError c => ParseExpressionError c
      | ParseError => ParseError
      | ParseOutOfFuel => ParseOutOfFuel
      end
  | ParseType.ALT =>
      next_iteration
        (append_item (ensure_alternative seq) (Sequence GROUP []))
  | _ => ParseExpressionError seq_chunk
  end.

(** The body of [parse_group_or_alt], given the loop [items]. *)
Definition group_or_alt (next_chunk : str -> Parsed (option ParseChunk.t))
    (remove_delimiters : str -> N -> N -> str)
    (items : Seq -> str -> option ParseChunk.t -> Parsed Seq)
    (seq_chunk : ParseChunk.t) : Parsed Seq :=
  let seq := (GROUP, []) in
  match ParseChunk.parse_type seq_chunk with
  | ParseType.GROUP =>
      let seq_text :=
        remove_delimiters (ParseChunk.text seq_chunk) GROUP_START GROUP_END in
      match next_chunk seq_text with
      | Ok item_chunk => items seq seq_text item_chunk
      | _ => ParseError
      end
  | ParseType.OPT =>
      let seq_text :=
        remove_delimiters (ParseChunk.text seq_chunk) OPT_START OPT_END in
      match next_chunk seq_text with
      | Ok item_chunk => items seq seq_text item_chunk
      | _ => ParseError
      end
  | _ => ParseExpressionError seq_chunk
  end.

(** The body of [parse_expression], given the parser [sequence] of a
    group or an optional. *)
Definition expression (remove_delimiters : str -> N -> N -> str)
    (sequence : ParseChunk.t -> Parsed Seq) (chunk : ParseChunk.t)
    : Parsed Expression :=
  match ParseChunk.parse_type chunk with
  | ParseType.WORD => Ok (TextChunk (ParseChunk.text chunk))
  | ParseType.GROUP =>
      match sequence chunk with
      | Ok seq => Ok (to_expression seq)
      | ParseExpressionError c => ParseExpressionError c
      | ParseError => ParseError
      | ParseOutOfFuel => ParseOutOfFuel
      end
  | ParseType.OPT =>
      match sequence chunk with
      | Ok seq =>
          Ok (to_expression
                (append_item (ensure_alternative seq) (TextChunk [])))
      | ParseExpressionError c => ParseExpressionError c
      | ParseError => ParseError
      | ParseOutOfFuel => ParseOutOfFuel
      end
  | ParseType.LIST =>
      Ok (list_reference
            (remove_delimiters (ParseChunk.text chunk) LIST_START LIST_END))
  | ParseType.RULE =>
      let rule_name :=
        remove_delimiters (ParseChunk.text chunk) RULE_START RULE_END in
      Ok (RuleReference rule_name)
  | _ => ParseExpressionError chunk
  end.

End ParserBodies.

(** * Properties *)

(** ** Strings *)

Module StrFacts.

Lemma startswith_app (p r : str) : startswith (p ++ r) p = true.
Proof.
  induction p as [|a p IH]; simpl; [reflexivity|].
  rewrite N.eqb_refl. exact IH.
Qed.

Lemma startswith_inv (s p : str) :
  startswith s p = true -> s = p ++ drop (length p) s.
Proof.
  revert s. induction p as [|a p IH]; intros s H; simpl in *.
  - reflexivity.
  - destruct s as [|b s]; [discriminate|].
    apply andb_prop in H as [Hab Hrest].
    apply N.eqb_eq in Hab. subst b.
    simpl. f_equal. apply IH, Hrest.
Qed.

Lemma drop_length_app (p r : str) : drop (length p) (p ++ r) = r.
Proof. induction p; simpl; auto. Qed.

End StrFacts.

(** ** The matcher *)

Module MatcherFacts.

Import Recognize SequenceType Examples.

(** C1, as the code has it: an empty Group yields no context at all,
    whatever the settings, the context and the recursion budget, and
    with any budget left the generator just finishes. The branch of a
    Group runs its loop only under [if seq.items:]. *)
Theorem empty_group_yields_nothing (fuel : nat) (settings : MatchSettings.t)
    (c : MatchContext.t) :
  Gen.yielded (match_expression fuel settings c (Sequence GROUP [])) = []
  /\ match_expression (S fuel) settings c (Sequence GROUP []) = ([], Finished).
Proof.
  split.
  - destruct fuel as [|fuel]; reflexivity.
  - reflexivity.
Qed.

(** C1, as stated, fails: on the input [b] there is no recursion budget
    with which the empty Group yields exactly the incoming context. *)
Lemma empty_group_does_not_yield_context :
  ~ exists fuel,
      Gen.yielded
        (match_expression fuel no_settings (at_start "b") (Sequence GROUP []))
      = [at_start "b"].
Proof.
  intros [fuel H]. destruct fuel as [|fuel]; simpl in H; discriminate H.
Qed.

(** C8: a text chunk yields at most one context, in every whitespace
    mode, at a word boundary or not, and through the retry without
    punctuation; and it always finishes. *)
Theorem text_chunk_yields_at_most_one (fuel : nat) (settings : MatchSettings.t)
    (c : MatchContext.t) (chunk : str) :
  (length (Gen.yielded (match_expression fuel settings c (TextChunk chunk))) <= 1)%nat
  /\ Gen.stop (match_expression (S fuel) settings c (TextChunk chunk)) = Finished.
Proof.
  split.
  - destruct fuel as [|fuel]; simpl; [lia|].
    unfold match_text_chunk.
    repeat match goal with
           | |- context [if ?b then _ else _] => destruct b
           end; simpl; lia.
  - simpl. unfold match_text_chunk.
    repeat match goal with
           | |- context [if ?b then _ else _] => destruct b
           end; reflexivity.
Qed.

(** C4: a non-empty chunk whose adjusted text is a prefix of the
    adjusted input yields exactly the context that holds the rest of the
    adjusted input, the entities and the intent context of the incoming
    context, and the flag telling whether the chunk text as written ends
    with a space. *)
Theorem text_chunk_prefix_match (fuel : nat) (settings : MatchSettings.t)
    (c : MatchContext.t) (chunk : str) :
  is_empty chunk = false ->
  startswith (adjust settings c (MatchContext.text c)) (adjust settings c chunk)
    = true ->
  exists rest,
    adjust settings c (MatchContext.text c) = adjust settings c chunk ++ rest
    /\ match_expression (S fuel) settings c (TextChunk chunk)
       = ([MatchContext.mk rest (MatchContext.entities c)
             (MatchContext.intent_context c) (endswith_space chunk)],
          Finished).
Proof.
  intros Hne Hprefix.
  exists (drop (length (adjust settings c chunk))
            (adjust settings c (MatchContext.text c))).
  split.
  - apply StrFacts.startswith_inv, Hprefix.
  - simpl. unfold match_text_chunk. rewrite Hne, Hprefix. reflexivity.
Qed.

(** C4 at the chunk [on ] and the input [  on the lights]. *)
Lemma text_chunk_prefix_match_witness :
  exists rest,
    adjust no_settings (at_start "  on the lights") (lit "  on the lights")
      = adjust no_settings (at_start "  on the lights") (lit "on ") ++ rest
    /\ match_expression 1 no_settings (at_start "  on the lights")
         (TextChunk (lit "on "))
       = ([MatchContext.mk rest [] ∅ (endswith_space (lit "on "))], Finished).
Proof.
  apply (text_chunk_prefix_match 0 no_settings (at_start "  on the lights")
           (lit "on ")); reflexivity.
Defined.

(** C9: on an empty remaining input a list reference that resolves to a
    slot list, of texts or of a range, yields nothing. *)
Theorem list_reference_on_empty_text (fuel : nat) (settings : MatchSettings.t)
    (c : MatchContext.t) (list_name slot_name : str) (slot_list : SlotList) :
  MatchContext.text c = [] ->
  MatchSettings.slot_lists settings !! list_name = Some slot_list ->
  match_expression (S fuel) settings c (ListReference list_name slot_name)
  = ([], Finished).
Proof.
  intros Htext Hlist. simpl.
  assert (Hhas : dict_has list_name (MatchSettings.slot_lists settings) = true).
  { unfold dict_has. apply bool_decide_eq_true. rewrite Hlist. eauto. }
  assert (Htruthy : dict_truthy (MatchSettings.slot_lists settings) = true).
  { unfold dict_truthy. apply negb_true_iff, bool_decide_eq_false.
    intros Hempty. rewrite Hempty, lookup_empty in Hlist. discriminate. }
  rewrite Hhas, Htruthy, Hlist. simpl.
  destruct slot_list as [values|start stop step].
  - rewrite Htext. reflexivity.
  - unfold match_range. rewrite Htext. reflexivity.
Qed.

(** C9 at a list whose only value matches the empty string. *)
Lemma list_reference_on_empty_text_witness :
  match_expression 2 empty_value_settings (at_start "")
    (ListReference (lit "name") (lit "name"))
  = ([], Finished).
Proof.
  apply (list_reference_on_empty_text 1 empty_value_settings (at_start "")
           (lit "name") (lit "name")
           (TextSlotList [TextSlotValue.mk (TextChunk []) VNone None]));
    reflexivity.
Defined.

End MatcherFacts.

(** ** Values *)

Module ValueFacts.

(** [==] on these values is equality. *)
Lemma eq_true_iff (a b : Value) : PyValue.eq a b = true <-> a = b.
Proof.
  revert b. induction a as [|n|s|items IH] using Value_nested_ind;
    intros [|m|t|others]; simpl;
    try (split; [discriminate|intros [=]]);
    try (split; [reflexivity|reflexivity]).
  - rewrite Z.eqb_eq. split; [intros ->; reflexivity|intros [=]; assumption].
  - rewrite bool_decide_eq_true.
    split; [intros ->; reflexivity|intros [=]; assumption].
  - revert others. induction IH as [|x xs Hx _ IHxs]; intros [|y ys].
    + split; reflexivity.
    + split; [discriminate|intros [=]].
    + split; [discriminate|intros [=]].
    + rewrite andb_true_iff, Hx, IHxs.
      split; [intros [-> [= ->]]; reflexivity|intros [= -> ->]; auto].
Qed.

Lemma eq_refl (a : Value) : PyValue.eq a a = true.
Proof. apply eq_true_iff. reflexivity. Qed.

Lemma is_none_true_iff (v : Value) : PyValue.is_none v = true <-> v = VNone.
Proof. destruct v; simpl; split; congruence. Qed.

Lemma is_none_false_iff (v : Value) : PyValue.is_none v = false <-> v <> VNone.
Proof. destruct v; simpl; split; congruence. Qed.

(** The test for a non-string collection that holds [x]. *)
Lemma in_collection_iff (v x : Value) :
  PyValue.is_collection v && negb (PyValue.is_str v) && PyValue.contains v x
    = true
  <-> exists items, v = VList items /\ In x items.
Proof.
  destruct v as [| | |items]; simpl;
    try (split; [discriminate|intros (? & [=] & _)]).
  rewrite existsb_exists. split.
  - intros (y & Hin & Heq). apply eq_true_iff in Heq. subst y. eauto.
  - intros (items' & [= <-] & Hin). exists x. split; [exact Hin|apply eq_refl].
Qed.

End ValueFacts.

(** ** Numbers at the start of the input *)

Module NumberFacts.

Import Recognize Spec.

Lemma take_while_all (p : N -> bool) (xs : str) :
  forallb p xs = true -> take_while p xs = xs.
Proof.
  induction xs as [|x xs IH]; simpl; [reflexivity|].
  intros H. apply andb_prop in H as [Hx Hxs]. rewrite Hx, IH; auto.
Qed.

Lemma take_while_app (p : N -> bool) (xs ys : str) :
  forallb p xs = true -> stops p ys = true -> take_while p (xs ++ ys) = xs.
Proof.
  intros Hxs Hys. induction xs as [|x xs IH]; simpl in *.
  - destruct ys as [|y ys]; [reflexivity|]. simpl in *.
    apply negb_true_iff in Hys. rewrite Hys. reflexivity.
  - apply andb_prop in Hxs as [Hx Hxs]. rewrite Hx, IH; auto.
Qed.

Lemma drop_while_app (p : N -> bool) (xs ys : str) :
  forallb p xs = true -> stops p ys = true -> drop_while p (xs ++ ys) = ys.
Proof.
  intros Hxs Hys. induction xs as [|x xs IH]; simpl in *.
  - destruct ys as [|y ys]; [reflexivity|]. simpl in *.
    apply negb_true_iff in Hys. rewrite Hys. reflexivity.
  - apply andb_prop in Hxs as [Hx Hxs]. rewrite Hx, IH; auto.
Qed.

Lemma digit_not_space (c : N) : is_digit c = true -> is_space c = false.
Proof.
  unfold is_digit, is_space. intros H.
  apply andb_prop in H as [H1 H2].
  apply N.leb_le in H1, H2.
  repeat match goal with
         | |- (_ || _) = false => apply orb_false_iff; split
         | |- (_ && _) = false => apply andb_false_iff
         end;
    first [ apply N.eqb_neq; lia
          | right; apply N.leb_gt; lia
          | left; apply N.leb_gt; lia ].
Qed.

Lemma digit_not_minus (c : N) : is_digit c = true -> (c =? 45) = false.
Proof.
  unfold is_digit. intros H. apply andb_prop in H as [H1 H2].
  apply N.leb_le in H1. apply N.eqb_neq. lia.
Qed.

Lemma drop_while_all (p : N -> bool) (xs : str) :
  forallb p xs = true -> drop_while p xs = [].
Proof.
  induction xs as [|x xs IH]; simpl; [reflexivity|].
  intros H. apply andb_prop in H as [Hx Hxs]. rewrite Hx. auto.
Qed.

(** What [int] skips is whitespace. *)
Lemma int_space_is_space (c : N) :
  Re.is_int_space c = true -> is_space c = true.
Proof. unfold Re.is_int_space. intros H. apply andb_prop in H as [H _]. exact H. Qed.

Lemma forallb_int_space (s : str) :
  forallb Re.is_int_space s = true -> forallb is_space s = true.
Proof.
  induction s as [|c s IH]; simpl; [reflexivity|].
  intros H. apply andb_prop in H as [Hc Hs].
  rewrite (int_space_is_space c Hc). auto.
Qed.

Lemma stops_int_space (s : str) :
  stops is_space s = true -> stops Re.is_int_space s = true.
Proof.
  destruct s as [|c s]; simpl; [reflexivity|].
  unfold Re.is_int_space. intros H. apply negb_true_iff in H.
  rewrite H. reflexivity.
Qed.

Section Number.

Variables (spaces digits rest : str) (negative : bool).
Hypothesis spaces_ok : forallb is_space spaces = true.
Hypothesis digits_ok : forallb is_digit digits = true.
Hypothesis digits_some : digits <> [].
Hypothesis rest_ok : stops is_digit rest = true.

Lemma signed_stops_spaces (tail : str) :
  stops is_space (signed negative digits ++ tail) = true.
Proof.
  unfold signed. destruct negative; simpl; [reflexivity|].
  destruct digits as [|d ds]; [contradiction|]. simpl in *.
  apply andb_prop in digits_ok as [Hd _].
  rewrite (digit_not_space d Hd). reflexivity.
Qed.

Lemma split_sign_signed (tail : str) :
  Re.split_sign (signed negative digits ++ tail) = (negative, digits ++ tail).
Proof.
  unfold signed. destruct negative; simpl; [reflexivity|].
  destruct digits as [|d ds]; [contradiction|]. simpl in *.
  apply andb_prop in digits_ok as [Hd _].
  rewrite (digit_not_minus d Hd). reflexivity.
Qed.

Lemma number_start_match_signed :
  Re.number_start_match (spaces ++ signed negative digits ++ rest)
  = Some (spaces ++ signed negative digits).
Proof.
  unfold Re.number_start_match.
  rewrite (take_while_app _ _ _ spaces_ok (signed_stops_spaces rest)).
  rewrite (drop_while_app _ _ _ spaces_ok (signed_stops_spaces rest)).
  rewrite split_sign_signed.
  rewrite (take_while_app _ _ _ digits_ok rest_ok).
  destruct digits as [|d ds]; [contradiction|]. reflexivity.
Qed.

Lemma int_of_str_signed :
  forallb Re.is_int_space spaces = true ->
  (length digits <= Re.int_max_str_digits)%nat ->
  Re.int_of_str (spaces ++ signed negative digits)
  = Some (if negative then (- Re.digits_value digits)%Z
          else Re.digits_value digits).
Proof.
  intros Hint Hlimit. unfold Re.int_of_str.
  pose proof (signed_stops_spaces []) as Hstop.
  rewrite app_nil_r in Hstop. apply stops_int_space in Hstop.
  rewrite (drop_while_app _ _ _ Hint Hstop).
  pose proof (split_sign_signed []) as Hsign.
  rewrite !app_nil_r in Hsign. rewrite Hsign.
  rewrite (take_while_all _ _ digits_ok), (drop_while_all _ _ digits_ok).
  destruct digits as [|d ds] eqn:E; [contradiction|]. rewrite <- E in *.
  apply Nat.leb_le in Hlimit. rewrite Hlimit. reflexivity.
Qed.

End Number.

(** The test of the source on [step >= 1] is the acceptance condition of
    the specification. *)
Lemma in_range_is_range_accepts (start stop step n : Z) :
  (1 <= step)%Z ->
  (if (step =? 1)%Z
   then Some ((start <=? n)%Z && (n <=? stop)%Z)
   else in_py_range start (stop + 1) step n)
  = Some (range_accepts start stop step n).
Proof.
  intros Hstep. unfold range_accepts, in_py_range.
  destruct (Z.eqb_spec step 1) as [->|Hne].
  - simpl. rewrite andb_true_r. reflexivity.
  - destruct (Z.eqb_spec step 0) as [->|_]; [lia|].
    destruct (Z.ltb_spec 0 step) as [_|?]; [|lia].
    simpl. repeat f_equal.
    destruct (Z.ltb_spec n (stop + 1)), (Z.leb_spec n stop); auto; lia.
Qed.

End NumberFacts.

(** ** Range slot lists *)

Module RangeFacts.

Import Recognize Spec Examples NumberFacts.

(** A dictionary that holds [key] passes both tests of the guard. *)
Lemma guard_of_lookup {V : Type} (d : gmap str V) (key : str) (v : V) :
  d !! key = Some v ->
  negb (dict_truthy d) || negb (dict_has key d) = false.
Proof.
  intros Hlookup. apply orb_false_iff. split; apply negb_false_iff.
  - unfold dict_truthy. apply negb_true_iff, bool_decide_eq_false.
    intros Hempty. rewrite Hempty, lookup_empty in Hlookup. discriminate.
  - unfold dict_has. apply bool_decide_eq_true. rewrite Hlookup. eauto.
Qed.



(** The limit on the digits is a condition as well: a number of 4301
    digits, within the bounds of a list wide enough, raises too. *)
Example range_reference_raises_on_long_number :
  match_expression 1
    (MatchSettings.mk {[ lit "n" := RangeSlotList 0 (10 ^ 5000) 1 ]} ∅ false)
    (MatchContext.mk (repeat 49 4301) [] ∅ true)
    (ListReference (lit "n") (lit "n"))
  = ([], Raised ValueError).
Proof. vm_compute. reflexivity. Qed.


(** ... and at [12], which is between the bounds but off the step, and
    at [-5], which is below them. *)
Example range_reference_rejects :
  match_expression 1 percent_settings (at_start "12")
    (ListReference (lit "percent") (lit "percent")) = ([], Finished)
  /\ match_expression 1 percent_settings (at_start "-5")
       (ListReference (lit "percent") (lit "percent")) = ([], Finished).
Proof. split; reflexivity. Qed.

End RangeFacts.

(** ** Errors of the matcher *)

Module ErrorFacts.

Import Recognize SequenceType Spec Examples.

(** The guard of a reference fires exactly when the name is absent. *)
Lemma guard_of_absent {V : Type} (d : gmap str V) (key : str) :
  d !! key = None ->
  negb (dict_truthy d) || negb (dict_has key d) = true.
Proof.
  intros Hnone. apply orb_true_iff. right.
  apply negb_true_iff. unfold dict_has. apply bool_decide_eq_false.
  rewrite Hnone. intros [v Hv]. discriminate.
Qed.

Lemma absent_of_guard {V : Type} (d : gmap str V) (key : str) :
  negb (dict_truthy d) || negb (dict_has key d) = true ->
  d !! key = None.
Proof.
  intros Hguard. apply orb_true_iff in Hguard as [H|H];
    apply negb_true_iff in H.
  - unfold dict_truthy in H. apply negb_false_iff, bool_decide_eq_true in H.
    rewrite H. apply lookup_empty.
  - unfold dict_has in H. apply bool_decide_eq_false in H.
    destruct (d !! key) eqn:E; [|reflexivity].
    exfalso. apply H. eauto.
Qed.

Section Propagation.

(** A property of stops that holds of normal termination. *)
Variable P : Stop -> Prop.
Hypothesis P_finished : P Finished.

Lemma for_each_stop {A : Type} (body : A -> Gen) (xs : list A) :
  (forall x, P (Gen.stop (body x))) -> P (Gen.stop (Gen.for_each body xs)).
Proof.
  intros Hbody. induction xs as [|x xs IH]; simpl; [exact P_finished|].
  unfold Gen.seq. specialize (Hbody x).
  destruct (Gen.stop (body x)) eqn:E; simpl; auto; rewrite E; exact Hbody.
Qed.

Lemma comprehension_stop (body : MatchContext.t -> Gen)
    (gcs : list MatchContext.t) (s : Stop) :
  (forall gc, P (Gen.stop (body gc))) ->
  Gen.comprehension body gcs = inr s -> P s.
Proof.
  intros Hbody. induction gcs as [|gc gcs IH]; simpl; [discriminate|].
  specialize (Hbody gc).
  destruct (Gen.stop (body gc)) eqn:E.
  - destruct (Gen.comprehension body gcs); [discriminate|].
    intros [= <-]. apply IH. reflexivity.
  - intros [= <-]. exact Hbody.
  - intros [= <-]. exact Hbody.
Qed.

Lemma group_loop_stop (step : MatchContext.t -> Expression -> Gen)
    (items : list Expression) (gcs : list MatchContext.t) (s : Stop) :
  (forall gc item, P (Gen.stop (step gc item))) ->
  group_loop step items gcs = inr s -> P s.
Proof.
  intros Hstep. revert gcs.
  induction items as [|item items IH]; intros gcs; simpl; [discriminate|].
  destruct (Gen.comprehension (fun gc => step gc item) gcs) as [[|c cs]|s'] eqn:E.
  - discriminate.
  - apply IH.
  - intros [= <-].
    apply (comprehension_stop (fun gc => step gc item) gcs s'); auto.
Qed.

End Propagation.

Lemma match_range_sound (settings : MatchSettings.t) (c : MatchContext.t)
    (slot_name : str) (start stop step : Z) :
  sound settings (Gen.stop (match_range c slot_name start stop step)).
Proof.
  unfold match_range.
  repeat match goal with
         | |- context [match ?x with _ => _ end] => destruct x
         end; exact I.
Qed.

Lemma match_text_chunk_finishes (settings : MatchSettings.t)
    (c : MatchContext.t) (chunk : str) :
  Gen.stop (match_text_chunk settings c chunk) = Finished.
Proof.
  unfold match_text_chunk.
  repeat match goal with
         | |- context [if ?b then _ else _] => destruct b
         end; reflexivity.
Qed.

(** Every way in which the matcher stops is sound for the settings. *)
Lemma match_expression_sound (settings : MatchSettings.t) (fuel : nat) :
  forall (c : MatchContext.t) (expression : Expression),
    sound settings (Gen.stop (match_expression fuel settings c expression)).
Proof.
  induction fuel as [|fuel IH]; intros c expression; [exact I|].
  destruct expression as [chunk|[|] items|list_name slot_name|rule_name]; simpl.
  - rewrite match_text_chunk_finishes. exact I.
  - destruct items as [|item items]; [exact I|].
    destruct (group_loop _ _ _) as [gcs|s] eqn:E; [exact I|].
    simpl. apply (group_loop_stop (sound settings) _ _ _ s) in E; auto.
  - apply for_each_stop; [exact I|]. intros item. apply IH.
  - destruct (negb _ || negb _) eqn:Hguard.
    + simpl. apply absent_of_guard, Hguard.
    + destruct (MatchSettings.slot_lists settings !! list_name)
        as [[values|start stop step]|] eqn:Hlist.
      * destruct (truthy (MatchContext.text c)); [|exact I].
        apply for_each_stop; [exact I|]. intros slot_value. apply IH.
      * apply match_range_sound.
      * rewrite (guard_of_absent _ _ Hlist) in Hguard. discriminate.
  - destruct (negb _ || negb _) eqn:Hguard.
    + simpl. apply absent_of_guard, Hguard.
    + destruct (MatchSettings.expansion_rules settings !! rule_name)
        as [rule|] eqn:Hrule.
      * apply IH.
      * rewrite (guard_of_absent _ _ Hrule) in Hguard. discriminate.
Qed.

(** C6: whatever the settings hold, a reference to a list that they
    lack raises [MissingListError], and a reference to a rule that they
    lack raises [MissingRuleError], before anything is yielded; a
    reference to a list, or to a rule, that they hold does not stop with
    the error of that name. Each of the four holds on its own: the
    settings may have no list, or no rule, at all. *)
Theorem missing_reference_is_fatal (fuel : nat) (settings : MatchSettings.t)
    (c : MatchContext.t) (list_name slot_name rule_name : str) :
  (MatchSettings.slot_lists settings !! list_name = None ->
   match_expression (S fuel) settings c (ListReference list_name slot_name)
   = ([], Raised (MissingListError list_name)))
  /\ (MatchSettings.expansion_rules settings !! rule_name = None ->
      match_expression (S fuel) settings c (RuleReference rule_name)
      = ([], Raised (MissingRuleError rule_name)))
  /\ (is_Some (MatchSettings.slot_lists settings !! list_name) ->
      Gen.stop (match_expression (S fuel) settings c
                  (ListReference list_name slot_name))
      <> Raised (MissingListError list_name))
  /\ (is_Some (MatchSettings.expansion_rules settings !! rule_name) ->
      Gen.stop (match_expression (S fuel) settings c
                  (RuleReference rule_name))
      <> Raised (MissingRuleError rule_name)).
Proof.
  repeat split.
  - intros Hmissing. simpl. rewrite (guard_of_absent _ _ Hmissing).
    reflexivity.
  - intros Hmissing. simpl. rewrite (guard_of_absent _ _ Hmissing).
    reflexivity.
  - intros [slot_list Hpresent] Hstop.
    pose proof (match_expression_sound settings (S fuel) c
                  (ListReference list_name slot_name)) as Hsound.
    rewrite Hstop in Hsound. simpl in Hsound. congruence.
  - intros [rule Hpresent] Hstop.
    pose proof (match_expression_sound settings (S fuel) c
                  (RuleReference rule_name)) as Hsound.
    rewrite Hstop in Hsound. simpl in Hsound. congruence.
Qed.

(** C6 at settings without any list or rule, where both references
    raise, and at the settings with the list [area] and the rule
    [place], where neither raises the error of its name. *)
Lemma missing_reference_is_fatal_witness :
  match_expression 3 no_settings (at_start "kitchen")
    (ListReference (lit "area") (lit "room"))
    = ([], Raised (MissingListError (lit "area")))
  /\ match_expression 3 no_settings (at_start "kitchen")
       (RuleReference (lit "place"))
     = ([], Raised (MissingRuleError (lit "place")))
  /\ Gen.stop (match_expression 3 area_settings (at_start "kitchen")
                 (ListReference (lit "area") (lit "room")))
     <> Raised (MissingListError (lit "area"))
  /\ Gen.stop (match_expression 3 area_settings (at_start "kitchen")
                 (RuleReference (lit "place")))
     <> Raised (MissingRuleError (lit "place")).
Proof.
  destruct (missing_reference_is_fatal 2 no_settings (at_start "kitchen")
              (lit "area") (lit "room") (lit "place"))
    as (Hlist & Hrule & _ & _).
  destruct (missing_reference_is_fatal 2 area_settings (at_start "kitchen")
              (lit "area") (lit "room") (lit "place"))
    as (_ & _ & Hheld_list & Hheld_rule).
  split; [apply Hlist; reflexivity|].
  split; [apply Hrule; reflexivity|].
  split; [apply Hheld_list; eexists; reflexivity|].
  apply Hheld_rule. eexists. reflexivity.
Defined.

(** The references that the settings with the list [area] lack raise as
    well: a list or a rule of another name does not help. *)
Example other_names_do_not_help :
  match_expression 3 area_settings (at_start "kitchen")
    (ListReference (lit "room") (lit "room"))
  = ([], Raised (MissingListError (lit "room")))
  /\ match_expression 3 area_settings (at_start "kitchen")
       (RuleReference (lit "area"))
     = ([], Raised (MissingRuleError (lit "area"))).
Proof. split; reflexivity. Qed.

(** The error of a missing list inside a rule is raised all the same,
    through the rule and the group that lead to it. *)
Example nested_missing_list_is_fatal :
  match_expression 3 area_settings (at_start "in kitchen")
    (RuleReference (lit "place"))
  = ([], Raised (MissingListError (lit "room"))).
Proof. reflexivity. Qed.

End ErrorFacts.

(** ** The context predicates *)

Module DriverFacts.

Import Driver Spec Examples ValueFacts.

(** One turn of the loop over the required context continues exactly
    when the requirement is met. *)
Lemma requires_step (required actual : Value) :
  (PyValue.eq actual required && negb (PyValue.is_none required))
  || (PyValue.is_none required && negb (PyValue.is_none actual))
  || (PyValue.is_collection required && negb (PyValue.is_str required)
      && PyValue.contains required actual) = true
  <-> requirement_met required actual.
Proof.
  unfold requirement_met.
  rewrite <- (in_collection_iff required actual).
  set (held := PyValue.is_collection required && _ && _).
  rewrite !orb_true_iff, !andb_true_iff, !negb_true_iff.
  rewrite eq_true_iff, is_none_true_iff, !is_none_false_iff.
  tauto.
Qed.

Lemma requires_loop_unfold (intent_context : gmap str Value)
    (key : str) (required : Value) (rest : list (str * Value)) :
  requires_loop intent_context ((key, required) :: rest)
  = if (PyValue.eq (dict_get intent_context key) required
          && negb (PyValue.is_none required))
       || (PyValue.is_none required
           && negb (PyValue.is_none (dict_get intent_context key)))
       || (PyValue.is_collection required && negb (PyValue.is_str required)
           && PyValue.contains required (dict_get intent_context key))
    then requires_loop intent_context rest
    else true.
Proof.
  simpl.
  destruct (PyValue.eq _ _ && _); [reflexivity|].
  destruct (PyValue.is_none required && _); [reflexivity|].
  destruct (PyValue.is_collection required && _ && _); reflexivity.
Qed.

(** The loop over the required context leaves the match alone exactly
    when every key meets its requirement. *)
Lemma requires_loop_false_iff (intent_context : gmap str Value)
    (items : list (str * Value)) :
  requires_loop intent_context items = false
  <-> forall key required,
        In (key, required) items ->
        requirement_met required (dict_get intent_context key).
Proof.
  induction items as [|[key required] rest IH].
  - simpl. split; [intros _ ? ? []|reflexivity].
  - rewrite requires_loop_unfold.
    destruct (_ || _ || _) eqn:Hstep.
    + apply requires_step in Hstep. rewrite IH. split.
      * intros Hrest k v [[= <- <-]|Hin]; [exact Hstep|exact (Hrest k v Hin)].
      * intros Hall k v Hin. apply Hall. right. exact Hin.
    + split; [discriminate|]. intros Hall. exfalso.
      assert (Hmet : requirement_met required (dict_get intent_context key))
        by (apply Hall; left; reflexivity).
      apply requires_step in Hmet. congruence.
Qed.

(** The value of [skip_match] in terms of the two loops. *)
Lemma skip_match_loops (intent_data : IntentData.t) (c : MatchContext.t) :
  skip_match intent_data c
  = excludes_loop (MatchContext.intent_context c)
      (IntentData.excludes_context intent_data)
    || requires_loop (MatchContext.intent_context c)
         (IntentData.requires_context intent_data).
Proof.
  unfold skip_match.
  destruct (IntentData.excludes_context intent_data) as [|e es];
    destruct (IntentData.requires_context intent_data) as [|r rs];
    cbn [items_truthy]; try reflexivity.
  - destruct (excludes_loop _ _); reflexivity.
  - destruct (excludes_loop _ _); reflexivity.
Qed.

(** C7: a candidate that the excluded context lets through is kept
    exactly when every key of the required context meets its
    requirement, (a), (b) or (c); one key that does not rejects the
    candidate. In particular a key required with the null value rejects
    a candidate whose intent context lacks it. *)
Theorem requires_context_accepts_iff (intent_data : IntentData.t)
    (c : MatchContext.t) :
  (skip_match intent_data c = false
   <-> excludes_loop (MatchContext.intent_context c)
         (IntentData.excludes_context intent_data) = false
       /\ forall key required,
            In (key, required) (IntentData.requires_context intent_data) ->
            requirement_met required
              (dict_get (MatchContext.intent_context c) key))
  /\ (forall key,
        In (key, VNone) (IntentData.requires_context intent_data) ->
        MatchContext.intent_context c !! key = None ->
        skip_match intent_data c = true /\ accepted intent_data c = false).
Proof.
  assert (Hiff :
    skip_match intent_data c = false
    <-> excludes_loop (MatchContext.intent_context c)
          (IntentData.excludes_context intent_data) = false
        /\ forall key required,
             In (key, required) (IntentData.requires_context intent_data) ->
             requirement_met required
               (dict_get (MatchContext.intent_context c) key)).
  { rewrite skip_match_loops, orb_false_iff, requires_loop_false_iff.
    reflexivity. }
  split; [exact Hiff|].
  intros key Hin Hnone.
  assert (Hskip : skip_match intent_data c = true).
  { apply not_false_iff_true. intros E.
    apply Hiff in E as [_ Hall]. specialize (Hall key VNone Hin).
    unfold dict_get in Hall. rewrite Hnone in Hall. simpl in Hall.
    destruct Hall as [[_ H]|[[_ H]|(items & H & _)]]; congruence. }
  split; [exact Hskip|].
  unfold accepted. rewrite Hskip. apply andb_false_r.
Qed.

(** The excluded context rejects as soon as one of its keys is excluded
    with the value found for it. *)
Lemma excludes_loop_hit (intent_context : gmap str Value)
    (items : list (str * Value)) (key : str) (excluded : Value) :
  In (key, excluded) items ->
  dict_get intent_context key = excluded ->
  excludes_loop intent_context items = true.
Proof.
  intros Hin Hactual.
  induction items as [|[k v] rest IH]; [destruct Hin|].
  simpl. destruct Hin as [[= -> ->]|Hin].
  - rewrite Hactual, eq_refl. reflexivity.
  - destruct (PyValue.eq _ _); [reflexivity|].
    destruct (_ && _ && _); [reflexivity|]. apply IH, Hin.
Qed.

(** C10: a key excluded with the null value rejects every candidate
    whose intent context lacks the key or maps it to null: the value
    looked up is null and compares equal to the excluded one. *)
Theorem excludes_null_rejects_unset (intent_data : IntentData.t)
    (c : MatchContext.t) (key : str) :
  In (key, VNone) (IntentData.excludes_context intent_data) ->
  MatchContext.intent_context c !! key = None
  \/ MatchContext.intent_context c !! key = Some VNone ->
  dict_get (MatchContext.intent_context c) key = VNone
  /\ skip_match intent_data c = true
  /\ accepted intent_data c = false.
Proof.
  intros Hin Hunset.
  assert (Hactual : dict_get (MatchContext.intent_context c) key = VNone).
  { unfold dict_get. destruct Hunset as [-> | ->]; reflexivity. }
  assert (Hskip : skip_match intent_data c = true).
  { rewrite skip_match_loops.
    rewrite (excludes_loop_hit _ _ key VNone Hin Hactual). reflexivity. }
  repeat split; [exact Hactual|exact Hskip|].
  unfold accepted. rewrite Hskip. apply andb_false_r.
Qed.

(** C10 at a candidate whose intent context is empty. *)
Lemma excludes_null_rejects_unset_witness :
  dict_get ∅ (lit "area") = VNone
  /\ skip_match needs_area (MatchContext.mk [] [] ∅ true) = true
  /\ accepted needs_area (MatchContext.mk [] [] ∅ true) = false.
Proof.
  apply (excludes_null_rejects_unset needs_area
           (MatchContext.mk [] [] ∅ true) (lit "area")).
  - left. reflexivity.
  - left. reflexivity.
Defined.

(** The required context at work: kept with both keys set as required,
    rejected when [area] is absent or [room] is another one. *)
Example requires_context_examples :
  skip_match requires_area
    (MatchContext.mk [] []
       {[ lit "area" := VInt 1; lit "room" := VStr (lit "hall") ]} true)
  = false
  /\ skip_match requires_area
       (MatchContext.mk [] [] {[ lit "room" := VStr (lit "hall") ]} true)
     = true
  /\ skip_match requires_area
       (MatchContext.mk [] []
          {[ lit "area" := VInt 1; lit "room" := VStr (lit "attic") ]} true)
     = true.
Proof. repeat split; vm_compute; reflexivity. Qed.

End DriverFacts.

(** ** The parser *)

Module ParserFacts.

Import Recognize SequenceType Examples.

(** C2, as the code has it: for every chunk of type WORD, whatever the
    tokenizer, [parse_expression] returns the chunk of text that holds
    the text of the chunk as it is; it removes no backslash. *)
Theorem word_chunk_text_unchanged
    (next_chunk : str -> Parsed (option ParseChunk.t))
    (remove_delimiters : str -> N -> N -> str)
    (fuel : nat) (chunk : ParseChunk.t) :
  ParseChunk.parse_type chunk = ParseType.WORD ->
  ParseExpression.parse_expression next_chunk remove_delimiters (S fuel) chunk
  = Ok (TextChunk (ParseChunk.text chunk)).
Proof.
  intros Hword. cbn [ParseExpression.parse_expression].
  rewrite Hword. reflexivity.
Qed.

(** C2 at the WORD of the two characters backslash and parenthesis. *)
Lemma word_chunk_text_unchanged_witness :
  ParseExpression.parse_expression Parser.next_chunk Parser.remove_delimiters
    1 (ParseChunk.mk ParseType.WORD [92; 40] 2)
  = Ok (TextChunk [92; 40]).
Proof.
  apply (word_chunk_text_unchanged Parser.next_chunk Parser.remove_delimiters
           0 (ParseChunk.mk ParseType.WORD [92; 40] 2)).
  reflexivity.
Defined.

(** C2, as stated, fails: handed the WORD of the two characters
    backslash and parenthesis, [parse_expression] does not return the
    chunk of the parenthesis alone. *)
Lemma word_chunk_escape_not_removed :
  Parser.parse_expression 1 (ParseChunk.mk ParseType.WORD (lit "\(") 2)
  <> Ok (TextChunk (lit "(")).
Proof. discriminate. Qed.

(** The escape is resolved before: the tokenizer hands the grammar text
    of backslash and parenthesis on as the WORD of the parenthesis. *)
Example escaped_parenthesis_is_a_word :
  Parser.next_chunk (lit "\(")
  = Ok (Some (ParseChunk.mk ParseType.WORD (lit "(") 2))
  /\ Parser.parse_text 2 (lit "\(") = Ok (TextChunk (lit "(")).
Proof. split; reflexivity. Qed.

Lemma for_each_app {A : Type} (body : A -> Gen) (xs ys : list A) :
  Gen.for_each body (xs ++ ys)
  = Gen.seq (Gen.for_each body xs) (Gen.for_each body ys).
Proof.
  induction xs as [|x xs IH]; simpl.
  - destruct (Gen.for_each body ys). reflexivity.
  - rewrite IH. unfold Gen.seq.
    destruct (body x) as [y1 s1], (Gen.for_each body xs) as [y2 s2],
      (Gen.for_each body ys) as [y3 s3]; simpl.
    destruct s1; simpl; try reflexivity.
    destruct s2; simpl; try reflexivity.
    rewrite app_assoc. reflexivity.
Qed.

(** An alternative whose last branch is the empty chunk yields what the
    same alternative with an empty group as last branch yields, and then
    the incoming context: the empty chunk yields it, the empty group
    yields nothing. *)
Lemma empty_chunk_versus_empty_group (fuel : nat) (settings : MatchSettings.t)
    (c : MatchContext.t) (branches : list Expression) (contexts : list MatchContext.t) :
  match_expression (S (S fuel)) settings c
    (Sequence ALTERNATIVE (branches ++ [Sequence GROUP []]))
  = (contexts, Finished) ->
  match_expression (S (S fuel)) settings c
    (Sequence ALTERNATIVE (branches ++ [TextChunk []]))
  = (contexts ++ [c], Finished).
Proof.
  cbn [match_expression]. rewrite !for_each_app.
  cbn [Gen.for_each match_expression]. unfold Gen.seq.
  destruct (Gen.for_each _ branches) as [ys s]. simpl.
  destruct s; simpl; [|discriminate|discriminate].
  rewrite !app_nil_r. intros [= <-]. reflexivity.
Qed.

(** C3, on the code: the optional [[a]] and the alternative [(a|)] are
    parsed to two alternatives that differ in their last branch, the
    empty chunk and the empty group; on the input [b] the optional
    yields the incoming context and the alternative yields nothing. *)
Theorem optional_differs_from_alternative :
  Parser.parse_text 6 (lit "[a]")
  = Ok (Sequence ALTERNATIVE [Sequence GROUP [TextChunk (lit "a")]; TextChunk []])
  /\ Parser.parse_text 6 (lit "(a|)")
     = Ok (Sequence ALTERNATIVE
             [Sequence GROUP [TextChunk (lit "a")]; Sequence GROUP []])
  /\ match_expression 3 no_settings (at_start "b")
       (Sequence ALTERNATIVE [Sequence GROUP [TextChunk (lit "a")]; TextChunk []])
     = ([at_start "b"], Finished)
  /\ match_expression 3 no_settings (at_start "b")
       (Sequence ALTERNATIVE
          [Sequence GROUP [TextChunk (lit "a")]; Sequence GROUP []])
     = ([], Finished).
Proof. repeat split; reflexivity. Qed.

End ParserFacts.

(** ** What generators yield *)

Module GenFacts.

Import Recognize.

Lemma in_seq (g1 g2 : Gen) (c : MatchContext.t) :
  In c (Gen.yielded (Gen.seq g1 g2)) ->
  In c (Gen.yielded g1) \/ In c (Gen.yielded g2).
Proof.
  unfold Gen.seq. destruct g1 as [y1 s1], g2 as [y2 s2]; simpl.
  destruct s1; simpl; auto. intros H. apply in_app_or, H.
Qed.

Lemma in_for_each {A : Type} (body : A -> Gen) (xs : list A)
    (c : MatchContext.t) :
  In c (Gen.yielded (Gen.for_each body xs)) ->
  exists x, In x xs /\ In c (Gen.yielded (body x)).
Proof.
  induction xs as [|x xs IH]; simpl; [intros []|].
  intros H. apply in_seq in H as [H|H].
  - exists x. auto.
  - destruct (IH H) as (x' & Hin & Hc). exists x'. auto.
Qed.

Lemma in_map_yield (f : MatchContext.t -> MatchContext.t) (g : Gen)
    (c : MatchContext.t) :
  In c (Gen.yielded (Gen.map_yield f g)) ->
  exists inner, In inner (Gen.yielded g) /\ c = f inner.
Proof.
  unfold Gen.map_yield. simpl. intros H.
  apply in_map_iff in H as (inner & Heq & Hin). exists inner. auto.
Qed.

Lemma in_comprehension (body : MatchContext.t -> Gen)
    (gcs out : list MatchContext.t) (c : MatchContext.t) :
  Gen.comprehension body gcs = inl out -> In c out ->
  exists gc, In gc gcs /\ In c (Gen.yielded (body gc)).
Proof.
  revert out. induction gcs as [|gc gcs IH]; simpl; intros out.
  - intros [= <-] [].
  - destruct (Gen.stop (body gc)); try discriminate.
    destruct (Gen.comprehension body gcs) as [more|]; [|discriminate].
    intros [= <-] Hin. apply in_app_or in Hin as [Hin|Hin].
    + exists gc. auto.
    + destruct (IH more Logic.eq_refl Hin) as (gc' & Hgc & Hc).
      exists gc'. auto.
Qed.

(** The working list of a group never revives: from no context, no
    context. *)
Lemma group_loop_nil (step : MatchContext.t -> Expression -> Gen)
    (items : list Expression) :
  group_loop step items [] = inl [].
Proof. destruct items; reflexivity. Qed.

(** One turn of the loop of a group, without the early exit. *)
Lemma group_loop_cons (step : MatchContext.t -> Expression -> Gen)
    (item : Expression) (rest : list Expression) (gcs : list MatchContext.t) :
  group_loop step (item :: rest) gcs
  = match Gen.comprehension (fun gc => step gc item) gcs with
    | inl next => group_loop step rest next
    | inr s => inr s
    end.
Proof.
  simpl. destruct (Gen.comprehension _ gcs) as [[|c cs]|s]; try reflexivity.
  symmetry. apply group_loop_nil.
Qed.

Section Invariant.

(** A relation between the context a match starts from and a context it
    yields, kept by every step of the matcher. *)
Variable settings : MatchSettings.t.
Variable R : MatchContext.t -> MatchContext.t -> Prop.
Hypothesis R_refl : forall c, R c c.
Hypothesis R_trans : forall a b c, R a b -> R b c -> R a c.
Hypothesis R_chunk : forall c chunk c',
  In c' (Gen.yielded (match_text_chunk settings c chunk)) -> R c c'.
Hypothesis R_range : forall c slot_name start stop step c',
  In c' (Gen.yielded (match_range c slot_name start stop step)) -> R c c'.
Hypothesis R_capture : forall c slot_name slot_value value_context,
  R c value_context -> R c (capture c slot_name slot_value value_context).

Lemma group_loop_invariant (step : MatchContext.t -> Expression -> Gen)
    (items : list Expression) :
  (forall gc item c', In c' (Gen.yielded (step gc item)) -> R gc c') ->
  forall gcs out c',
    group_loop step items gcs = inl out -> In c' out ->
    exists gc, In gc gcs /\ R gc c'.
Proof.
  intros Hstep. induction items as [|item items IH]; intros gcs out c'.
  - simpl. intros [= <-] Hin. exists c'. auto.
  - rewrite group_loop_cons.
    destruct (Gen.comprehension _ gcs) as [next|] eqn:E; [|discriminate].
    intros Hloop Hin.
    destruct (IH next out c' Hloop Hin) as (mid & Hmid & Hr).
    destruct (in_comprehension _ _ _ _ E Hmid) as (gc & Hgc & Hy).
    exists gc. split; [exact Hgc|]. eapply R_trans; [|exact Hr].
    apply (Hstep gc item mid Hy).
Qed.

Lemma context_eta (c : MatchContext.t) :
  MatchContext.mk (MatchContext.text c) (MatchContext.entities c)
    (MatchContext.intent_context c) (MatchContext.is_start_of_word c) = c.
Proof. destruct c; reflexivity. Qed.

(** The relation holds between the incoming context and every context
    that [match_expression] yields. *)
Lemma match_expression_invariant (fuel : nat) :
  forall (c : MatchContext.t) (expression : Expression) (c' : MatchContext.t),
    In c' (Gen.yielded (match_expression fuel settings c expression)) ->
    R c c'.
Proof.
  induction fuel as [|fuel IH]; intros c expression c'; [intros []|].
  destruct expression as [chunk|[|] items|list_name slot_name|rule_name];
    cbn [match_expression].
  - apply R_chunk.
  - destruct items as [|item items]; [intros []|].
    destruct (group_loop _ _ _) as [out|s] eqn:E; [|intros []].
    simpl. intros Hin.
    destruct (group_loop_invariant (match_expression fuel settings)
                (item :: items) (fun gc it x => IH gc it x) [c] out c' E Hin)
      as (gc & [<-|[]] & Hr).
    exact Hr.
  - intros Hin. apply in_for_each in Hin as (item & _ & Hin).
    apply (IH c item c' Hin).
  - destruct (negb _ || negb _); [intros []|].
    destruct (MatchSettings.slot_lists settings !! list_name)
      as [[values|start stop step]|]; [| |intros []].
    + destruct (truthy (MatchContext.text c)); [|intros []].
      intros Hin. apply in_for_each in Hin as (slot_value & _ & Hin).
      apply in_map_yield in Hin as (inner & Hin & ->).
      rewrite context_eta in Hin.
      apply R_capture. apply (IH c _ inner Hin).
    + apply R_range.
  - destruct (negb _ || negb _); [intros []|].
    destruct (MatchSettings.expansion_rules settings !! rule_name)
      as [rule|]; [|intros []].
    apply IH.
Qed.

End Invariant.

End GenFacts.

(** ** Invariants of the matcher *)

Module InvariantFacts.

Import Recognize Examples MoreExamples GenFacts.

Lemma length_drop_while (p : N -> bool) (s : str) :
  (length (drop_while p s) <= length s)%nat.
Proof.
  induction s as [|c s IH]; simpl; [lia|].
  destruct (p c); simpl; lia.
Qed.

Lemma length_whitespace_remove (s : str) :
  (length (Re.whitespace_remove s) <= length s)%nat.
Proof.
  unfold Re.whitespace_remove.
  induction s as [|c s IH]; simpl; [lia|].
  destruct (negb (is_space c)); simpl; lia.
Qed.

Lemma length_punctuation_sub_from (repl : str) (in_run : bool) (s : str) :
  (length repl <= 1)%nat ->
  (length (Re.punctuation_sub_from repl in_run s) <= length s)%nat.
Proof.
  intros Hrepl. revert in_run.
  induction s as [|c s IH]; intros in_run; simpl; [lia|].
  destruct (Re.is_punctuation c).
  - rewrite length_app. specialize (IH true).
    destruct in_run; simpl; lia.
  - simpl. specialize (IH false). lia.
Qed.

Lemma length_adjust (settings : MatchSettings.t) (c : MatchContext.t) (s : str) :
  (length (adjust settings c s) <= length s)%nat.
Proof.
  unfold adjust.
  destruct (MatchSettings.ignore_whitespace settings);
    [apply length_whitespace_remove|].
  destruct (MatchContext.is_start_of_word c); [apply length_drop_while|lia].
Qed.

(** What a text chunk yields keeps the entities and the intent context,
    and its text is not longer than the incoming one. *)
Lemma in_match_text_chunk (settings : MatchSettings.t) (c c' : MatchContext.t)
    (chunk : str) :
  In c' (Gen.yielded (match_text_chunk settings c chunk)) ->
  MatchContext.entities c' = MatchContext.entities c
  /\ MatchContext.intent_context c' = MatchContext.intent_context c
  /\ (length (MatchContext.text c') <= length (MatchContext.text c))%nat.
Proof.
  unfold match_text_chunk.
  pose proof (length_adjust settings c (MatchContext.text c)) as Hadj.
  pose proof (length_punctuation_sub_from [32] false (MatchContext.text c)
                (le_n 1)) as Hpunct.
  pose proof (length_drop_while is_space
                (Re.punctuation_sub [32] (MatchContext.text c))) as Hstrip.
  unfold Re.punctuation_sub, lstrip in *.
  repeat match goal with
         | |- context [if ?b then _ else _] => destruct b
         end; simpl; intros Hin;
    match type of Hin with
    | False => destruct Hin
    | _ => destruct Hin as [<-|[]]
    end; simpl;
    repeat split; unfold slice_from; rewrite ?length_drop; lia.
Qed.

(** What a range yields has one more entity, named after the slot, and
    the same intent context and word flag; its text is not longer. *)
Lemma in_match_range (c c' : MatchContext.t) (slot_name : str)
    (start stop step : Z) :
  In c' (Gen.yielded (match_range c slot_name start stop step)) ->
  (exists entity,
      MatchContext.entities c' = MatchContext.entities c ++ [entity]
      /\ MatchEntity.name entity = slot_name)
  /\ MatchContext.intent_context c' = MatchContext.intent_context c
  /\ MatchContext.is_start_of_word c' = MatchContext.is_start_of_word c
  /\ (length (MatchContext.text c') <= length (MatchContext.text c))%nat.
Proof.
  unfold match_range.
  destruct (truthy _); [|intros []].
  destruct (Re.number_start_match _) as [number_text|]; [|intros []].
  destruct (Re.int_of_str number_text) as [word_number|]; [|intros []].
  destruct (if (step =? 1)%Z then _ else _) as [[|]|];
    [|intros []|intros []].
  simpl. intros [<-|[]]. simpl. repeat split.
  - eexists. split; reflexivity.
  - unfold slice_from. rewrite length_drop. lia.
Qed.

(** X1: the matcher never drops or reorders the entities captured so
    far: the entities of every context it yields are those of the
    incoming context, followed by new ones. *)
Theorem entities_only_grow (fuel : nat) (settings : MatchSettings.t)
    (c c' : MatchContext.t) (expression : Expression) :
  In c' (Gen.yielded (match_expression fuel settings c expression)) ->
  exists more,
    MatchContext.entities c' = MatchContext.entities c ++ more.
Proof.
  apply (match_expression_invariant settings
           (fun a b => exists more,
                MatchContext.entities b = MatchContext.entities a ++ more)).
  - intros a. exists []. symmetry. apply app_nil_r.
  - intros x y z [m1 H1] [m2 H2]. exists (m1 ++ m2).
    rewrite H2, H1, app_assoc. reflexivity.
  - intros a chunk b Hin. apply in_match_text_chunk in Hin as (He & _).
    exists []. rewrite He. symmetry. apply app_nil_r.
  - intros a slot_name start stop step b Hin.
    apply in_match_range in Hin as ((entity & He & _) & _). eauto.
  - intros a slot_name slot_value vc _. unfold capture.
    destruct (opt_dict_truthy _); simpl; eauto.
Qed.

(** X2: the matcher never lengthens the input: the text of every
    context it yields is at most as long as the incoming text. *)
Theorem text_never_grows (fuel : nat) (settings : MatchSettings.t)
    (c c' : MatchContext.t) (expression : Expression) :
  In c' (Gen.yielded (match_expression fuel settings c expression)) ->
  (length (MatchContext.text c') <= length (MatchContext.text c))%nat.
Proof.
  apply (match_expression_invariant settings
           (fun a b => (length (MatchContext.text b)
                        <= length (MatchContext.text a))%nat)).
  - intros a. lia.
  - intros x y z H1 H2. lia.
  - intros a chunk b Hin. apply in_match_text_chunk in Hin as (_ & _ & H).
    exact H.
  - intros a slot_name start stop step b Hin.
    apply in_match_range in Hin as (_ & _ & _ & H). exact H.
  - intros a slot_name slot_value vc H. unfold capture.
    destruct (opt_dict_truthy _); simpl; exact H.
Qed.

(** X3: the matcher never removes a key from the intent context: a key
    that the incoming context maps is mapped by every context yielded
    (a matched list value may give it another value). *)
Theorem intent_context_keys_kept (fuel : nat) (settings : MatchSettings.t)
    (c c' : MatchContext.t) (expression : Expression) (key : str) :
  In c' (Gen.yielded (match_expression fuel settings c expression)) ->
  is_Some (MatchContext.intent_context c !! key) ->
  is_Some (MatchContext.intent_context c' !! key).
Proof.
  intros Hin. revert key.
  apply (match_expression_invariant settings
           (fun a b => forall key,
                is_Some (MatchContext.intent_context a !! key) ->
                is_Some (MatchContext.intent_context b !! key)))
    with (fuel := fuel) (expression := expression); [..|exact Hin].
  - auto.
  - auto.
  - intros a chunk b Hin'. apply in_match_text_chunk in Hin' as (_ & H & _).
    rewrite H. auto.
  - intros a slot_name start stop step b Hin'.
    apply in_match_range in Hin' as (_ & H & _). rewrite H. auto.
  - intros a slot_name slot_value vc H key. unfold capture.
    destruct (opt_dict_truthy _); simpl; [|apply H].
    intros Hsome. unfold dict_merge. apply lookup_union_is_Some. auto.
Qed.

(** X1, X2 and X3 at the list [area] matching the kitchen. *)
Lemma entities_only_grow_witness :
  exists more,
    MatchContext.entities kitchen_matched
    = MatchContext.entities kitchen_context ++ more.
Proof.
  apply (entities_only_grow 2 area_settings kitchen_context kitchen_matched
           (ListReference (lit "area") (lit "area"))).
  vm_compute. left. reflexivity.
Defined.

Lemma text_never_grows_witness :
  (length (MatchContext.text kitchen_matched)
   <= length (MatchContext.text kitchen_context))%nat.
Proof.
  apply (text_never_grows 2 area_settings kitchen_context kitchen_matched
           (ListReference (lit "area") (lit "area"))).
  vm_compute. left. reflexivity.
Defined.

Lemma intent_context_keys_kept_witness :
  is_Some (MatchContext.intent_context kitchen_matched !! lit "domain").
Proof.
  apply (intent_context_keys_kept 2 area_settings kitchen_context
           kitchen_matched (ListReference (lit "area") (lit "area"))
           (lit "domain")).
  - vm_compute. left. reflexivity.
  - eexists. reflexivity.
Defined.

End InvariantFacts.

(** ** List references *)

Module CaptureFacts.

Import Recognize Examples MoreExamples GenFacts InvariantFacts.

(** X4: a list reference adds exactly one entity, named after the slot,
    to the entities of the incoming context, and leaves the word flag as
    it was; entities captured while a list value itself was matched are
    not kept. *)
Theorem list_reference_adds_one_entity (fuel : nat)
    (settings : MatchSettings.t) (c c' : MatchContext.t)
    (list_name slot_name : str) :
  In c' (Gen.yielded (match_expression fuel settings c
                        (ListReference list_name slot_name))) ->
  exists entity,
    MatchContext.entities c' = MatchContext.entities c ++ [entity]
    /\ MatchEntity.name entity = slot_name
    /\ MatchContext.is_start_of_word c' = MatchContext.is_start_of_word c.
Proof.
  destruct fuel as [|fuel]; [intros []|]. cbn [match_expression].
  destruct (negb _ || negb _); [intros []|].
  destruct (MatchSettings.slot_lists settings !! list_name)
    as [[values|start stop step]|]; [| |intros []].
  - destruct (truthy (MatchContext.text c)); [|intros []].
    intros Hin. apply in_for_each in Hin as (slot_value & _ & Hin).
    apply in_map_yield in Hin as (inner & _ & ->).
    unfold capture. destruct (opt_dict_truthy _); simpl; eauto.
  - intros Hin.
    apply in_match_range in Hin as ((entity & He & Hn) & _ & Hw & _).
    eauto.
Qed.

(** X4 at the list [area] matching the kitchen. *)
Lemma list_reference_adds_one_entity_witness :
  exists entity,
    MatchContext.entities kitchen_matched
    = MatchContext.entities kitchen_context ++ [entity]
    /\ MatchEntity.name entity = lit "area"
    /\ MatchContext.is_start_of_word kitchen_matched
       = MatchContext.is_start_of_word kitchen_context.
Proof.
  apply (list_reference_adds_one_entity 2 area_settings kitchen_context
           kitchen_matched (lit "area") (lit "area")).
  vm_compute. left. reflexivity.
Defined.

(** X5: the entity that a list of texts captures holds the value of one
    of the values of the list, and its text is the head of the incoming
    text, as long as what the match consumed: its length and the length
    of the text left add up to the length of the incoming text. *)
Theorem text_list_captures_head (fuel : nat) (settings : MatchSettings.t)
    (c c' : MatchContext.t) (list_name slot_name : str)
    (values : list TextSlotValue.t) :
  MatchSettings.slot_lists settings !! list_name = Some (TextSlotList values) ->
  In c' (Gen.yielded (match_expression fuel settings c
                        (ListReference list_name slot_name))) ->
  exists entity slot_value,
    MatchContext.entities c' = MatchContext.entities c ++ [entity]
    /\ In slot_value values
    /\ MatchEntity.value entity = TextSlotValue.value_out slot_value
    /\ MatchEntity.text entity
       = take (length (MatchContext.text c) - length (MatchContext.text c'))
           (MatchContext.text c)
    /\ (length (MatchEntity.text entity) + length (MatchContext.text c')
        = length (MatchContext.text c))%nat.
Proof.
  intros Hlist. destruct fuel as [|fuel]; [intros []|].
  cbn [match_expression].
  rewrite (RangeFacts.guard_of_lookup _ _ _ Hlist), Hlist.
  destruct (truthy (MatchContext.text c)); [|intros []].
  intros Hin. apply in_for_each in Hin as (slot_value & Hvalue & Hin).
  apply in_map_yield in Hin as (inner & Hinner & ->).
  rewrite context_eta in Hinner.
  apply text_never_grows in Hinner.
  assert (Htext :
    (if truthy (MatchContext.text inner)
     then slice_to_neg (length (MatchContext.text inner)) (MatchContext.text c)
     else MatchContext.text c)
    = take (length (MatchContext.text c) - length (MatchContext.text inner))
        (MatchContext.text c)).
  { destruct (MatchContext.text inner) as [|x rest] eqn:E; simpl.
    - rewrite Nat.sub_0_r, firstn_all. reflexivity.
    - reflexivity. }
  eexists. exists slot_value.
  unfold capture. destruct (opt_dict_truthy _); simpl;
    (split; [reflexivity|]); (split; [exact Hvalue|]);
    (split; [reflexivity|]); (split; [exact Htext|]);
    rewrite Htext; cbn [MatchEntity.text]; rewrite length_take; lia.
Qed.

(** X5 at the same match. *)
Lemma text_list_captures_head_witness :
  exists entity slot_value,
    MatchContext.entities kitchen_matched
    = MatchContext.entities kitchen_context ++ [entity]
    /\ In slot_value
         [TextSlotValue.mk (TextChunk (lit "kitchen")) (VStr (lit "kitchen")) None]
    /\ MatchEntity.value entity = TextSlotValue.value_out slot_value
    /\ MatchEntity.text entity
       = take (length (MatchContext.text kitchen_context)
               - length (MatchContext.text kitchen_matched))
           (MatchContext.text kitchen_context)
    /\ (length (MatchEntity.text entity)
        + length (MatchContext.text kitchen_matched)
        = length (MatchContext.text kitchen_context))%nat.
Proof.
  apply (text_list_captures_head 2 area_settings kitchen_context
           kitchen_matched (lit "area") (lit "area")).
  - reflexivity.
  - vm_compute. left. reflexivity.
Defined.

End CaptureFacts.

(** ** Sequences *)

Module SequenceFacts.

Import Recognize SequenceType Shape Examples GenFacts.

(** X6: an alternative yields the contexts of its branches in the order
    of the branches: splitting the branches in two, it yields what the
    first part yields and, if that finishes, what the second part
    yields; if the first part stops otherwise, so does the whole, after
    the contexts yielded so far. *)
Theorem alternative_app (fuel : nat) (settings : MatchSettings.t)
    (c : MatchContext.t) (first second : list Expression) :
  match_expression (S fuel) settings c (Sequence ALTERNATIVE (first ++ second))
  = Gen.seq
      (match_expression (S fuel) settings c (Sequence ALTERNATIVE first))
      (match_expression (S fuel) settings c (Sequence ALTERNATIVE second)).
Proof. cbn [match_expression]. apply ParserFacts.for_each_app. Qed.

Lemma comprehension_app (body : MatchContext.t -> Gen)
    (g1 g2 : list MatchContext.t) :
  Gen.comprehension body (g1 ++ g2)
  = match Gen.comprehension body g1 with
    | inl out1 =>
        match Gen.comprehension body g2 with
        | inl out2 => inl (out1 ++ out2)
        | inr s => inr s
        end
    | inr s => inr s
    end.
Proof.
  induction g1 as [|gc g1 IH]; simpl.
  - destruct (Gen.comprehension body g2); reflexivity.
  - destruct (Gen.stop (body gc)); try reflexivity.
    rewrite IH.
    destruct (Gen.comprehension body g1); [|reflexivity].
    destruct (Gen.comprehension body g2); [|reflexivity].
    rewrite app_assoc. reflexivity.
Qed.

(** The loop of a group from two working lists put together, when it
    goes through from each of them. *)
Lemma group_loop_contexts_app (step : MatchContext.t -> Expression -> Gen)
    (items : list Expression) :
  forall g1 g2 out1 out2,
    group_loop step items g1 = inl out1 ->
    group_loop step items g2 = inl out2 ->
    group_loop step items (g1 ++ g2) = inl (out1 ++ out2).
Proof.
  induction items as [|item items IH]; intros g1 g2 out1 out2.
  - simpl. intros [= <-] [= <-]. reflexivity.
  - rewrite !group_loop_cons, comprehension_app.
    destruct (Gen.comprehension _ g1) as [n1|]; [|discriminate].
    destruct (Gen.comprehension _ g2) as [n2|]; [|discriminate].
    apply IH.
Qed.

(** The loop of a group over two runs of items is the loop over the
    first run followed by the loop over the second. *)
Lemma group_loop_items_app (step : MatchContext.t -> Expression -> Gen)
    (first second : list Expression) :
  forall gcs,
    group_loop step (first ++ second) gcs
    = match group_loop step first gcs with
      | inl mids => group_loop step second mids
      | inr s => inr s
      end.
Proof.
  induction first as [|item first IH]; intros gcs; [reflexivity|].
  rewrite <- app_comm_cons, !group_loop_cons.
  destruct (Gen.comprehension _ gcs); [apply IH|reflexivity].
Qed.

(** A comprehension, and the loop of a group, are only aborted by a
    generator that does not finish. *)
Lemma comprehension_aborted (body : MatchContext.t -> Gen)
    (gcs : list MatchContext.t) (s : Stop) :
  Gen.comprehension body gcs = inr s -> s <> Finished.
Proof.
  induction gcs as [|gc gcs IH]; simpl; [discriminate|].
  destruct (Gen.stop (body gc)).
  - destruct (Gen.comprehension body gcs); [discriminate|].
    intros [= <-]. apply IH. reflexivity.
  - intros [= <-]. discriminate.
  - intros [= <-]. discriminate.
Qed.

Lemma group_loop_aborted (step : MatchContext.t -> Expression -> Gen)
    (items : list Expression) :
  forall gcs s, group_loop step items gcs = inr s -> s <> Finished.
Proof.
  induction items as [|item items IH]; intros gcs s; [discriminate|].
  rewrite group_loop_cons.
  destruct (Gen.comprehension _ gcs) as [next|s'] eqn:E.
  - apply IH.
  - intros [= <-]. apply (comprehension_aborted _ _ _ E).
Qed.

(** The branch of a group with a first item. *)
Lemma match_group_cons (fuel : nat) (settings : MatchSettings.t)
    (c : MatchContext.t) (item : Expression) (items : list Expression) :
  match_expression (S fuel) settings c (Sequence GROUP (item :: items))
  = match group_loop (match_expression fuel settings) (item :: items) [c] with
    | inl group_contexts => (group_contexts, Finished)
    | inr s => ([], s)
    end.
Proof. reflexivity. Qed.

Lemma group_loop_from_each (fuel : nat) (settings : MatchSettings.t)
    (item : Expression) (items : list Expression)
    (mids : list MatchContext.t) :
  (forall mid, In mid mids ->
     Gen.stop (match_expression (S fuel) settings mid
                 (Sequence GROUP (item :: items))) = Finished) ->
  group_loop (match_expression fuel settings) (item :: items) mids
  = inl (from_each (S fuel) settings (item :: items) mids).
Proof.
  induction mids as [|mid mids IH]; intros Hfin; [reflexivity|].
  change (mid :: mids) with ([mid] ++ mids).
  apply (group_loop_contexts_app _ _ [mid] mids
           (Gen.yielded (match_expression (S fuel) settings mid
                           (Sequence GROUP (item :: items))))
           (from_each (S fuel) settings (item :: items) mids)).
  - specialize (Hfin mid (or_introl Logic.eq_refl)).
    rewrite match_group_cons in Hfin |- *.
    destruct (group_loop _ (item :: items) [mid]) as [out|s] eqn:E.
    + reflexivity.
    + apply group_loop_aborted in E. simpl in Hfin. contradiction.
  - apply IH. intros m Hm. apply Hfin. right. exact Hm.
Qed.

(** X7: a group composes: the group of two non-empty runs of items
    yields, from every context that the group of the first run yields
    and in their order, the contexts that the group of the second run
    yields. *)
Theorem group_app (fuel : nat) (settings : MatchSettings.t)
    (c : MatchContext.t) (first second : list Expression)
    (mids : list MatchContext.t) :
  first <> [] -> second <> [] ->
  match_expression (S fuel) settings c (Sequence GROUP first)
    = (mids, Finished) ->
  (forall mid, In mid mids ->
     Gen.stop (match_expression (S fuel) settings mid (Sequence GROUP second))
     = Finished) ->
  match_expression (S fuel) settings c (Sequence GROUP (first ++ second))
  = (from_each (S fuel) settings second mids, Finished).
Proof.
  intros Hfirst Hsecond Hmids Hfin.
  destruct first as [|f first]; [contradiction|].
  destruct second as [|s second]; [contradiction|].
  rewrite match_group_cons in Hmids.
  rewrite <- app_comm_cons, match_group_cons.
  change (f :: first ++ s :: second) with ((f :: first) ++ s :: second).
  rewrite group_loop_items_app.
  destruct (group_loop _ (f :: first) [c]) as [out|stop] eqn:E.
  2: { injection Hmids as _ ->. apply group_loop_aborted in E. contradiction. }
  injection Hmids as ->.
  rewrite (group_loop_from_each fuel settings s second mids Hfin).
  reflexivity.
Qed.

(** X7 at the group of [turn ] and [on] and the input [turn on]. *)
Lemma group_app_witness :
  match_expression 2 no_settings (at_start "turn on")
    (Sequence GROUP ([TextChunk (lit "turn ")] ++ [TextChunk (lit "on")]))
  = (from_each 2 no_settings [TextChunk (lit "on")]
       [MatchContext.mk (lit "on") [] ∅ true],
     Finished).
Proof.
  apply (group_app 1 no_settings (at_start "turn on")
           [TextChunk (lit "turn ")] [TextChunk (lit "on")]
           [MatchContext.mk (lit "on") [] ∅ true]).
  - discriminate.
  - discriminate.
  - reflexivity.
  - intros mid [<-|[]]. reflexivity.
Defined.

End SequenceFacts.

(** ** Text chunks and what is left of the input *)

Module ChunkFacts.

Import Recognize Notions Examples GenFacts.

Lemma drop_while_nil_iff (p : N -> bool) (s : str) :
  drop_while p s = [] <-> forallb p s = true.
Proof.
  induction s as [|c s IH]; simpl; [tauto|].
  destruct (p c); simpl; [exact IH|]. split; discriminate.
Qed.

Lemma forallb_drop_while (p q : N -> bool) (s : str) :
  forallb q s = true -> forallb q (drop_while p s) = true.
Proof.
  induction s as [|c s IH]; simpl; [auto|].
  intros H. destruct (p c); [|exact H].
  apply andb_prop in H as [_ H]. auto.
Qed.

Lemma drop_while_head (p : N -> bool) (s : str) (c : N) (rest : str) :
  drop_while p s = c :: rest -> p c = false.
Proof.
  induction s as [|x s IH]; simpl; [discriminate|].
  destruct (p x) eqn:E; [exact IH|]. intros [= <- _]. exact E.
Qed.

(** Dropping a leading run from two strings put together. *)
Lemma drop_while_app_cases (p : N -> bool) (a b : str) :
  drop_while p (a ++ b)
  = if forallb p a then drop_while p b else drop_while p a ++ b.
Proof.
  induction a as [|x a IH]; simpl; [reflexivity|].
  destruct (p x); simpl; [exact IH|reflexivity].
Qed.

Lemma forallb_rev (p : N -> bool) (s : str) :
  forallb p (rev s) = forallb p s.
Proof.
  induction s as [|c s IH]; simpl; [reflexivity|].
  rewrite forallb_app, IH. simpl. rewrite andb_true_r. apply andb_comm.
Qed.

(** [s.strip()] is empty exactly for a string of whitespace. *)
Lemma strip_nil_iff (s : str) : strip s = [] <-> forallb is_space s = true.
Proof.
  unfold strip, rstrip, lstrip. split.
  - intros H.
    assert (Hrev : drop_while is_space (rev (drop_while is_space s)) = []).
    { destruct (drop_while is_space (rev _)) as [|x xs]; [reflexivity|].
      simpl in H. destruct (rev xs); discriminate H. }
    apply drop_while_nil_iff in Hrev. rewrite forallb_rev in Hrev.
    destruct (drop_while is_space s) as [|x xs] eqn:E.
    + apply drop_while_nil_iff, E.
    + apply drop_while_head in E. simpl in Hrev. rewrite E in Hrev.
      discriminate.
  - intros H. apply drop_while_nil_iff in H. rewrite H. reflexivity.
Qed.

(** [PUNCTUATION.sub("", s)] drops the punctuation and nothing else. *)
Lemma punctuation_sub_nil (in_run : bool) (s : str) :
  Re.punctuation_sub_from [] in_run s
  = List.filter (fun c => negb (Re.is_punctuation c)) s.
Proof.
  revert in_run. induction s as [|c s IH]; intros in_run; simpl;
    [reflexivity|].
  destruct (Re.is_punctuation c); simpl.
  - destruct in_run; simpl; apply IH.
  - f_equal. apply IH.
Qed.

Lemma forallb_filter_filler (s : str) :
  forallb is_space (List.filter (fun c => negb (Re.is_punctuation c)) s)
  = forallb is_filler s.
Proof.
  unfold is_filler. induction s as [|c s IH]; simpl; [reflexivity|].
  destruct (Re.is_punctuation c); simpl.
  - rewrite orb_true_r. exact IH.
  - rewrite orb_false_r, IH. reflexivity.
Qed.

(** X8: a context is a match exactly when every character left of the
    input is whitespace or punctuation. *)
Theorem is_match_iff_filler (c : MatchContext.t) :
  MatchContext.is_match c = forallb is_filler (MatchContext.text c).
Proof.
  unfold MatchContext.is_match, Re.punctuation_sub.
  rewrite punctuation_sub_nil, <- forallb_filter_filler.
  destruct (forallb is_space _) eqn:E.
  - apply strip_nil_iff in E. rewrite E. reflexivity.
  - destruct (strip _) eqn:S; [|reflexivity].
    apply strip_nil_iff in S. congruence.
Qed.

Lemma whitespace_remove_app (a b : str) :
  Re.whitespace_remove (a ++ b)
  = Re.whitespace_remove a ++ Re.whitespace_remove b.
Proof. unfold Re.whitespace_remove. apply List.filter_app. Qed.

Lemma forallb_whitespace_remove (q : N -> bool) (s : str) :
  forallb q s = true -> forallb q (Re.whitespace_remove s) = true.
Proof.
  unfold Re.whitespace_remove. induction s as [|c s IH]; simpl; [auto|].
  intros H. apply andb_prop in H as [Hc Hs].
  destruct (negb (is_space c)); simpl; [rewrite Hc|]; auto.
Qed.

Lemma startswith_nil (s : str) : startswith s [] = true.
Proof. reflexivity. Qed.

(** The adjusted input that begins with the chunk: what is left after
    the adjusted chunk is still filler. *)
Lemma adjust_app (settings : MatchSettings.t) (c : MatchContext.t)
    (chunk tail : str) :
  forallb is_filler tail = true ->
  exists rest,
    adjust settings c (chunk ++ tail) = adjust settings c chunk ++ rest
    /\ forallb is_filler rest = true.
Proof.
  intros Htail. unfold adjust.
  destruct (MatchSettings.ignore_whitespace settings).
  - exists (Re.whitespace_remove tail). split;
      [apply whitespace_remove_app|apply forallb_whitespace_remove, Htail].
  - destruct (MatchContext.is_start_of_word c).
    + unfold lstrip. rewrite drop_while_app_cases.
      destruct (forallb is_space chunk) eqn:E.
      * apply drop_while_nil_iff in E. rewrite E.
        exists (drop_while is_space tail). split; [reflexivity|].
        apply forallb_drop_while, Htail.
      * exists tail. auto.
    + exists tail. auto.
Qed.

(** X9: a literal chunk matches an input that is the chunk followed by
    nothing but whitespace and punctuation, in every whitespace mode and
    at a word boundary or not: it yields one context, which is a
    match. *)
Theorem literal_matches_itself (fuel : nat) (settings : MatchSettings.t)
    (c : MatchContext.t) (chunk tail : str) :
  is_empty chunk = false ->
  MatchContext.text c = chunk ++ tail ->
  forallb is_filler tail = true ->
  exists c',
    match_expression (S fuel) settings c (TextChunk chunk) = ([c'], Finished)
    /\ MatchContext.is_match c' = true
    /\ MatchContext.entities c' = MatchContext.entities c
    /\ MatchContext.intent_context c' = MatchContext.intent_context c.
Proof.
  intros Hchunk Htext Htail.
  destruct (adjust_app settings c chunk tail Htail) as (rest & Hadj & Hrest).
  cbn [match_expression]. unfold match_text_chunk.
  rewrite Hchunk, Htext, Hadj, StrFacts.startswith_app.
  eexists. split; [reflexivity|].
  rewrite is_match_iff_filler. simpl. unfold slice_from.
  rewrite StrFacts.drop_length_app. auto.
Qed.

(** X9 at the chunk [turn on the lights] and the input
    [turn on the lights!]. *)
Lemma literal_matches_itself_witness :
  exists c',
    match_expression 1 no_settings (at_start "turn on the lights! ")
      (TextChunk (lit "turn on the lights"))
    = ([c'], Finished)
    /\ MatchContext.is_match c' = true
    /\ MatchContext.entities c' = []
    /\ MatchContext.intent_context c' = ∅.
Proof.
  apply (literal_matches_itself 0 no_settings
           (at_start "turn on the lights! ")
           (lit "turn on the lights") (lit "! ")); reflexivity.
Defined.

Lemma isspace_forallb (s : str) : isspace s = true -> forallb is_space s = true.
Proof. destruct s; [discriminate|auto]. Qed.

(** X10: a chunk of whitespace only never rejects: whatever the input
    and the mode, it yields exactly one context, with the entities and
    the intent context of the incoming one. *)
Theorem whitespace_chunk_always_matches (fuel : nat)
    (settings : MatchSettings.t) (c : MatchContext.t) (chunk : str) :
  isspace chunk = true ->
  exists c',
    match_expression (S fuel) settings c (TextChunk chunk) = ([c'], Finished)
    /\ MatchContext.entities c' = MatchContext.entities c
    /\ MatchContext.intent_context c' = MatchContext.intent_context c.
Proof.
  intros Hspace. cbn [match_expression]. unfold match_text_chunk.
  assert (Hne : is_empty chunk = false) by (destruct chunk; [discriminate|reflexivity]).
  rewrite Hne.
  destruct (startswith _ _) eqn:Hstarts; [eexists; repeat split|].
  assert (Hadj : isspace (adjust settings c chunk) = true).
  { unfold adjust in *.
    pose proof (isspace_forallb chunk Hspace) as Hall.
    destruct (MatchSettings.ignore_whitespace settings).
    - assert (Re.whitespace_remove chunk = []) as Hnil.
      { unfold Re.whitespace_remove. clear -Hall.
        induction chunk as [|x xs IH]; simpl in *; [reflexivity|].
        apply andb_prop in Hall as [Hx Hxs]. rewrite Hx. simpl. auto. }
      rewrite Hnil in Hstarts. discriminate.
    - destruct (MatchContext.is_start_of_word c); [|exact Hspace].
      apply drop_while_nil_iff in Hall. unfold lstrip in Hstarts.
      rewrite Hall in Hstarts. discriminate. }
  rewrite Hadj. eexists. repeat split.
Qed.

(** X10 at a single space, away from a word boundary, before a letter. *)
Lemma whitespace_chunk_always_matches_witness :
  exists c',
    match_expression 1 no_settings (MatchContext.mk (lit "x") [] ∅ false)
      (TextChunk (lit " "))
    = ([c'], Finished)
    /\ MatchContext.entities c' = []
    /\ MatchContext.intent_context c' = ∅.
Proof.
  apply (whitespace_chunk_always_matches 0 no_settings
           (MatchContext.mk (lit "x") [] ∅ false) (lit " ")).
  reflexivity.
Defined.

End ChunkFacts.

(** ** Ranges with other steps *)

Module RangeEdgeFacts.

Import Recognize Spec Examples.

(** X11: a range list whose step is zero cannot be matched: on an input
    that starts with a number the reference raises [ValueError], the
    error of [range] on a zero step, before anything is yielded. *)
Theorem range_step_zero_raises (fuel : nat) (settings : MatchSettings.t)
    (c : MatchContext.t) (list_name slot_name : str) (start stop : Z)
    (number_text : str) :
  MatchSettings.slot_lists settings !! list_name
    = Some (RangeSlotList start stop 0) ->
  Re.number_start_match (MatchContext.text c) = Some number_text ->
  match_expression (S fuel) settings c (ListReference list_name slot_name)
  = ([], Raised ValueError).
Proof.
  intros Hlist Hnumber. cbn [match_expression].
  rewrite (RangeFacts.guard_of_lookup _ _ _ Hlist), Hlist.
  unfold match_range. rewrite Hnumber.
  destruct (MatchContext.text c) as [|x rest]; [discriminate Hnumber|].
  cbn [truthy]. destruct (Re.int_of_str number_text); reflexivity.
Qed.

(** X12: with a negative step the reference accepts the number [n]
    that [int] reads at the start of the input exactly when
    [stop + 1 < n <= start] and [(n - start) mod step = 0], as
    [range(start, stop + 1, step)] does: the bound [stop] itself and
    [stop + 1] are left out. *)
Theorem range_negative_step (fuel : nat) (settings : MatchSettings.t)
    (c : MatchContext.t) (list_name slot_name : str) (start stop step : Z)
    (number_text : str) (n : Z) :
  MatchSettings.slot_lists settings !! list_name
    = Some (RangeSlotList start stop step) ->
  (step < 0)%Z ->
  Re.number_start_match (MatchContext.text c) = Some number_text ->
  Re.int_of_str number_text = Some n ->
  match_expression (S fuel) settings c (ListReference list_name slot_name)
  = if (stop + 1 <? n)%Z && (n <=? start)%Z && ((n - start) mod step =? 0)%Z
    then ([MatchContext.mk
             (drop (length number_text) (MatchContext.text c))
             (MatchContext.entities c
              ++ [MatchEntity.mk slot_name (VInt n)
                    (first_token (MatchContext.text c))])
             (MatchContext.intent_context c)
             (MatchContext.is_start_of_word c)],
          Finished)
    else ([], Finished).
Proof.
  intros Hlist Hstep Hnumber Hint. cbn [match_expression].
  rewrite (RangeFacts.guard_of_lookup _ _ _ Hlist), Hlist.
  unfold match_range. rewrite Hnumber, Hint.
  destruct (MatchContext.text c) as [|x rest] eqn:Htext;
    [discriminate Hnumber|].
  cbn [truthy].
  destruct (Z.eqb_spec step 1) as [?|_]; [lia|].
  unfold in_py_range.
  destruct (Z.eqb_spec step 0) as [?|_]; [lia|].
  destruct (Z.ltb_spec 0 step) as [?|_]; [lia|].
  replace ((n <=? start)%Z && (stop + 1 <? n)%Z)
    with ((stop + 1 <? n)%Z && (n <=? start)%Z) by apply andb_comm.
  destruct (_ && _ && _); reflexivity.
Qed.

End RangeEdgeFacts.

(** ** Recursion *)

Module RecursionFacts.

Import Recognize SequenceType Shape Examples GenFacts.

(** X13: a rule that refers to itself never yields and never finishes:
    the matcher uses up every recursion budget on a reference to it. *)
Theorem self_referring_rule_diverges (settings : MatchSettings.t)
    (rule_name : str) :
  MatchSettings.expansion_rules settings !! rule_name
    = Some (RuleReference rule_name) ->
  forall (fuel : nat) (c : MatchContext.t),
    match_expression fuel settings c (RuleReference rule_name)
    = ([], OutOfFuel).
Proof.
  intros Hrule fuel. induction fuel as [|fuel IH]; intros c; [reflexivity|].
  cbn [match_expression].
  rewrite (RangeFacts.guard_of_lookup _ _ _ Hrule), Hrule. apply IH.
Qed.

Lemma for_each_finishes {A : Type} (body : A -> Gen) (xs : list A) :
  (forall x, In x xs -> Gen.stop (body x) = Finished) ->
  Gen.stop (Gen.for_each body xs) = Finished.
Proof.
  induction xs as [|x xs IH]; intros H; [reflexivity|].
  simpl. unfold Gen.seq. rewrite (H x (or_introl Logic.eq_refl)). simpl.
  apply IH. intros y Hy. apply H. right. exact Hy.
Qed.

Lemma comprehension_goes_through (body : MatchContext.t -> Gen)
    (gcs : list MatchContext.t) :
  (forall gc, Gen.stop (body gc) = Finished) ->
  exists out, Gen.comprehension body gcs = inl out.
Proof.
  intros H. induction gcs as [|gc gcs [out IH]]; simpl; [eauto|].
  rewrite (H gc), IH. eauto.
Qed.

Lemma group_loop_goes_through (step : MatchContext.t -> Expression -> Gen)
    (items : list Expression) :
  (forall gc item, In item items -> Gen.stop (step gc item) = Finished) ->
  forall gcs, exists out, group_loop step items gcs = inl out.
Proof.
  induction items as [|item items IH]; intros H gcs; [simpl; eauto|].
  rewrite group_loop_cons.
  destruct (comprehension_goes_through (fun gc => step gc item) gcs)
    as [next Hnext].
  { intros gc. apply H. left. reflexivity. }
  rewrite Hnext. apply IH. intros gc it Hit. apply H. right. exact Hit.
Qed.

Lemma depth_item (items : list Expression) (item : Expression) :
  In item items -> (depth item <= list_max (List.map depth items))%nat.
Proof.
  induction items as [|x items IH]; [intros []|].
  simpl. intros [->|Hin]; [lia|]. specialize (IH Hin). lia.
Qed.

Lemma reference_free_item (items : list Expression) (item : Expression) :
  forallb reference_free items = true -> In item items ->
  reference_free item = true.
Proof. intros H Hin. rewrite forallb_forall in H. auto. Qed.

(** X14: an expression without list or rule references is always
    matched to the end: with a recursion budget above its nesting depth
    the matcher finishes, without an error, whatever the settings and
    the input. *)
Theorem reference_free_finishes (settings : MatchSettings.t) (fuel : nat) :
  forall (c : MatchContext.t) (expression : Expression),
    reference_free expression = true ->
    (depth expression < fuel)%nat ->
    Gen.stop (match_expression fuel settings c expression) = Finished.
Proof.
  induction fuel as [|fuel IH]; intros c expression Hfree Hdepth; [lia|].
  destruct expression as [chunk|[|] items| |]; try discriminate Hfree.
  - apply ErrorFacts.match_text_chunk_finishes.
  - simpl in Hfree, Hdepth. destruct items as [|item items]; [reflexivity|].
    rewrite SequenceFacts.match_group_cons.
    destruct (group_loop_goes_through (match_expression fuel settings)
                (item :: items)) with (gcs := [c]) as [out Hout].
    { intros gc it Hit. apply IH.
      - apply (reference_free_item _ _ Hfree Hit).
      - pose proof (depth_item _ _ Hit). lia. }
    rewrite Hout. reflexivity.
  - simpl in Hfree, Hdepth. cbn [match_expression].
    apply for_each_finishes. intros item Hit. apply IH.
    + apply (reference_free_item _ _ Hfree Hit).
    + pose proof (depth_item _ _ Hit). lia.
Qed.

Lemma for_each_stable {A : Type} (body body' : A -> Gen) (xs : list A) :
  (forall x, Gen.stop (body x) <> OutOfFuel -> body' x = body x) ->
  Gen.stop (Gen.for_each body xs) <> OutOfFuel ->
  Gen.for_each body' xs = Gen.for_each body xs.
Proof.
  intros Hext. induction xs as [|x xs IH]; [reflexivity|].
  simpl. unfold Gen.seq.
  destruct (Gen.stop (body x)) eqn:E; simpl; intros Hstop.
  - rewrite (Hext x) by congruence. rewrite E, IH by exact Hstop.
    reflexivity.
  - rewrite (Hext x) by congruence. rewrite E. reflexivity.
  - rewrite E in Hstop. contradiction.
Qed.

Lemma comprehension_stable (body body' : MatchContext.t -> Gen)
    (gcs : list MatchContext.t) :
  (forall gc, Gen.stop (body gc) <> OutOfFuel -> body' gc = body gc) ->
  Gen.comprehension body gcs <> inr OutOfFuel ->
  Gen.comprehension body' gcs = Gen.comprehension body gcs.
Proof.
  intros Hext. induction gcs as [|gc gcs IH]; [reflexivity|].
  simpl. destruct (Gen.stop (body gc)) eqn:E; intros Hstop.
  - rewrite (Hext gc) by congruence. rewrite E.
    destruct (Gen.comprehension body gcs) as [more|s] eqn:Emore.
    + rewrite IH by discriminate. reflexivity.
    + rewrite IH; [reflexivity|]. intros Hs. apply Hstop. exact Hs.
  - rewrite (Hext gc) by congruence. rewrite E. reflexivity.
  - contradiction.
Qed.

Lemma group_loop_stable (step step' : MatchContext.t -> Expression -> Gen)
    (items : list Expression) :
  (forall gc item, Gen.stop (step gc item) <> OutOfFuel ->
     step' gc item = step gc item) ->
  forall gcs,
    group_loop step items gcs <> inr OutOfFuel ->
    group_loop step' items gcs = group_loop step items gcs.
Proof.
  intros Hext. induction items as [|item items IH]; intros gcs; [reflexivity|].
  rewrite !group_loop_cons. intros Hstop.
  rewrite (comprehension_stable (fun gc => step gc item)
             (fun gc => step' gc item)).
  - destruct (Gen.comprehension _ gcs); [apply IH; exact Hstop|reflexivity].
  - intros gc. apply Hext.
  - intros Hs. rewrite Hs in Hstop. contradiction.
Qed.

Lemma match_list_reference (fuel : nat) (settings : MatchSettings.t)
    (c : MatchContext.t) (list_name slot_name : str) :
  match_expression (S fuel) settings c (ListReference list_name slot_name)
  = Branches.list_reference (match_expression fuel settings) settings c
      list_name slot_name.
Proof. reflexivity. Qed.

Lemma match_rule_reference (fuel : nat) (settings : MatchSettings.t)
    (c : MatchContext.t) (rule_name : str) :
  match_expression (S fuel) settings c (RuleReference rule_name)
  = Branches.rule_reference (match_expression fuel settings) settings c
      rule_name.
Proof. reflexivity. Qed.

Lemma match_alternative (fuel : nat) (settings : MatchSettings.t)
    (c : MatchContext.t) (items : list Expression) :
  match_expression (S fuel) settings c (Sequence ALTERNATIVE items)
  = Gen.for_each (match_expression fuel settings c) items.
Proof. reflexivity. Qed.

Lemma match_expression_stable_step (settings : MatchSettings.t) (fuel : nat) :
  forall (c : MatchContext.t) (expression : Expression),
    Gen.stop (match_expression fuel settings c expression) <> OutOfFuel ->
    match_expression (S fuel) settings c expression
    = match_expression fuel settings c expression.
Proof.
  induction fuel as [|fuel IH]; intros c expression Hstop;
    [simpl in Hstop; contradiction|].
  destruct expression as [chunk|[|] items|list_name slot_name|rule_name].
  - reflexivity.
  - destruct items as [|item items]; [reflexivity|].
    rewrite !SequenceFacts.match_group_cons in *.
    rewrite (group_loop_stable (match_expression fuel settings)
               (match_expression (S fuel) settings)); [reflexivity| |].
    + intros gc it. apply IH.
    + intros Hs. rewrite Hs in Hstop. simpl in Hstop. contradiction.
  - rewrite !match_alternative in *.
    apply for_each_stable; [intros item; apply IH|exact Hstop].
  - rewrite !match_list_reference in *. unfold Branches.list_reference in *.
    destruct (negb _ || negb _); [reflexivity|].
    destruct (MatchSettings.slot_lists settings !! list_name)
      as [[values|start stop step]|]; try reflexivity.
    destruct (truthy (MatchContext.text c)); [|reflexivity].
    apply for_each_stable; [|exact Hstop].
    intros slot_value Hs. unfold Gen.map_yield in *. simpl in Hs.
    rewrite (IH _ _ Hs). reflexivity.
  - rewrite !match_rule_reference in *. unfold Branches.rule_reference in *.
    destruct (negb _ || negb _); [reflexivity|].
    destruct (MatchSettings.expansion_rules settings !! rule_name);
      [|reflexivity].
    apply IH, Hstop.
Qed.

(** X15: the result of a match does not depend on the recursion budget
    once the budget suffices: when the matcher stops, normally or by an
    error, within a budget, every larger budget gives the same contexts
    and the same stop. *)
Theorem match_expression_stable (settings : MatchSettings.t)
    (fuel extra : nat) (c : MatchContext.t) (expression : Expression) :
  Gen.stop (match_expression fuel settings c expression) <> OutOfFuel ->
  match_expression (fuel + extra) settings c expression
  = match_expression fuel settings c expression.
Proof.
  intros Hstop. induction extra as [|extra IH].
  - rewrite Nat.add_0_r. reflexivity.
  - rewrite Nat.add_succ_r, match_expression_stable_step; [exact IH|].
    rewrite IH. exact Hstop.
Qed.

End RecursionFacts.

(** ** The excluded context and the order of the keys *)

Module ContextFacts.

Import Driver Spec Notions Examples ValueFacts DriverFacts.

Lemma excludes_step (excluded actual : Value) :
  PyValue.eq actual excluded
  || (PyValue.is_collection excluded && negb (PyValue.is_str excluded)
      && PyValue.contains excluded actual) = true
  <-> exclusion_hit excluded actual.
Proof.
  unfold exclusion_hit.
  rewrite <- (in_collection_iff excluded actual), orb_true_iff, eq_true_iff.
  reflexivity.
Qed.

Lemma excludes_loop_unfold (intent_context : gmap str Value)
    (key : str) (excluded : Value) (rest : list (str * Value)) :
  excludes_loop intent_context ((key, excluded) :: rest)
  = (PyValue.eq (dict_get intent_context key) excluded
     || (PyValue.is_collection excluded && negb (PyValue.is_str excluded)
         && PyValue.contains excluded (dict_get intent_context key)))
    || excludes_loop intent_context rest.
Proof.
  simpl. destruct (PyValue.eq _ _); [reflexivity|].
  destruct (_ && _ && _); reflexivity.
Qed.

(** X16: the excluded context rejects a candidate exactly when one of
    its keys is excluded with the value found for it in the intent
    context (null for an absent key), or with a collection, not a
    string, that holds that value. *)
Theorem excludes_loop_true_iff (intent_context : gmap str Value)
    (items : list (str * Value)) :
  excludes_loop intent_context items = true
  <-> exists key excluded,
        In (key, excluded) items
        /\ exclusion_hit excluded (dict_get intent_context key).
Proof.
  induction items as [|[key excluded] rest IH].
  - simpl. split; [discriminate|intros (? & ? & [] & _)].
  - rewrite excludes_loop_unfold, orb_true_iff, excludes_step, IH. split.
    + intros [Hhit|(k & v & Hin & Hhit)].
      * exists key, excluded. split; [left; reflexivity|exact Hhit].
      * exists k, v. split; [right; exact Hin|exact Hhit].
    + intros (k & v & [[= <- <-]|Hin] & Hhit); [left; exact Hhit|].
      right. exists k, v. auto.
Qed.

Lemma bool_eq_of_iff (a b : bool) : (a = true <-> b = true) -> a = b.
Proof. destruct a, b; intuition congruence. Qed.

(** X17: the fate of a candidate does not depend on the order in which
    the two context dictionaries are gone through: intents whose
    required items and excluded items are the same up to their order
    skip the same candidates. *)
Theorem skip_match_order_irrelevant (a b : IntentData.t) (c : MatchContext.t) :
  Permutation (IntentData.excludes_context a) (IntentData.excludes_context b) ->
  Permutation (IntentData.requires_context a) (IntentData.requires_context b) ->
  skip_match a c = skip_match b c.
Proof.
  intros Hex Hreq. rewrite !skip_match_loops. f_equal.
  - apply bool_eq_of_iff. rewrite !excludes_loop_true_iff.
    split; intros (k & v & Hin & Hhit); exists k, v; split; auto.
    + apply (Permutation_in _ Hex), Hin.
    + apply (Permutation_in _ (Permutation_sym Hex)), Hin.
  - apply bool_eq_of_iff. rewrite <- !not_false_iff_true.
    rewrite !requires_loop_false_iff.
    split; intros Hn Hall; apply Hn; intros k v Hin; apply Hall.
    + apply (Permutation_in _ Hreq), Hin.
    + apply (Permutation_in _ (Permutation_sym Hreq)), Hin.
Qed.

End ContextFacts.

(** ** The entry point *)

Module EntryFacts.

Import Recognize SequenceType Helpers Examples.

Lemma find_app_some {A : Type} (p : A -> bool) (xs ys : list A) (x : A) :
  find p xs = Some x -> find p (xs ++ ys) = Some x.
Proof.
  induction xs as [|y xs IH]; simpl; [discriminate|].
  destruct (p y); auto.
Qed.

Lemma first_match_seq (g1 g2 : Gen) (m : MatchContext.t) :
  first_match g1 = Match m -> first_match (Gen.seq g1 g2) = Match m.
Proof.
  unfold first_match. destruct (find _ (Gen.yielded g1)) as [x|] eqn:E.
  - intros [= <-]. unfold Gen.seq. destruct (Gen.stop g1); simpl.
    + rewrite (find_app_some _ _ _ _ E). reflexivity.
    + rewrite E. reflexivity.
    + rewrite E. reflexivity.
  - destruct (Gen.stop g1); discriminate.
Qed.

Section Entry.

Variable normalize_text : str -> str.
Variable normalize_whitespace : str -> str.
Variable remove_whole_word : str -> str -> str.

(** X18: the first full match wins and what comes after it is never
    asked: when a sentence matches an input, an alternative that has the
    sentence as its first branch gives the same match, whatever the
    later branches are, even if they refer to lists or rules that are
    missing. *)
Theorem first_branch_match_wins (fuel : nat) (text : str)
    (first : Expression) (others : list Expression)
    (slot_lists : option (gmap str SlotList))
    (expansion_rules : option (gmap str Expression))
    (skip_words : list str) (intent_context : option (gmap str Value))
    (ignore_whitespace : bool) (m : MatchContext.t) :
  is_match normalize_text normalize_whitespace remove_whole_word
    fuel text first slot_lists expansion_rules skip_words intent_context
    ignore_whitespace = Match m ->
  is_match normalize_text normalize_whitespace remove_whole_word
    (S fuel) text (Sequence ALTERNATIVE (first :: others))
    slot_lists expansion_rules skip_words intent_context ignore_whitespace
  = Match m.
Proof.
  unfold is_match. intros H.
  rewrite RecursionFacts.match_alternative. cbn [Gen.for_each].
  apply first_match_seq, H.
Qed.

(** X19: a match returned by [is_match] is a context whose rest of the
    input is only whitespace and punctuation, and a sentence without
    list or rule references is always decided, as a match or as no
    match, with a recursion budget above its depth. *)
Theorem is_match_decides (fuel : nat) (text : str) (sentence : Expression)
    (slot_lists : option (gmap str SlotList))
    (expansion_rules : option (gmap str Expression))
    (skip_words : list str) (intent_context : option (gmap str Value))
    (ignore_whitespace : bool) :
  Shape.reference_free sentence = true ->
  (Shape.depth sentence < fuel)%nat ->
  match is_match normalize_text normalize_whitespace remove_whole_word
          fuel text sentence slot_lists expansion_rules skip_words
          intent_context ignore_whitespace with
  | Match m => forallb Notions.is_filler (MatchContext.text m) = true
  | NoMatch => True
  | Fails _ => False
  | Diverges => False
  end.
Proof.
  intros Hfree Hdepth. unfold is_match, first_match.
  destruct (find _ _) as [m|] eqn:E.
  - apply find_some in E as [_ E].
    rewrite ChunkFacts.is_match_iff_filler in E. exact E.
  - rewrite (RecursionFacts.reference_free_finishes _ _ _ _ Hfree Hdepth).
    exact I.
Qed.

End Entry.

End EntryFacts.

(** ** Shapes that the parser builds *)

Module ShapeFacts.

Import Recognize SequenceType Shape Notions Examples.
Import ParseExpression.

Lemma all_groups_app (xs ys : list Expression) :
  all_groups xs -> all_groups ys -> all_groups (xs ++ ys).
Proof. unfold all_groups. intros. apply Forall_app. auto. Qed.

Lemma all_groups_group (inner : list Expression) :
  all_groups [Sequence GROUP inner].
Proof. repeat constructor. eauto. Qed.

Lemma ensure_alternative_well_formed (seq : Seq) :
  well_formed seq ->
  fst (ensure_alternative seq) = ALTERNATIVE
  /\ snd (ensure_alternative seq) <> []
  /\ all_groups (snd (ensure_alternative seq)).
Proof.
  unfold well_formed, ensure_alternative. destruct seq as [[|] items]; simpl.
  - intros _. repeat split; [discriminate|apply all_groups_group].
  - intros H. destruct (H Logic.eq_refl). auto.
Qed.

Lemma removelast_app_last (items : list Expression) (x : Expression) :
  last items = Some x -> items = removelast items ++ [x].
Proof.
  induction items as [|y items IH]; [discriminate|].
  destruct items as [|z items]; simpl in *.
  - intros [= ->]. reflexivity.
  - intros H. f_equal. apply IH, H.
Qed.

Lemma append_to_last_groups (items items' : list Expression)
    (item : Expression) :
  all_groups items ->
  append_to_last items item = Some items' ->
  items' <> [] /\ all_groups items'.
Proof.
  unfold append_to_last. intros Hgroups.
  set (opened := match items with [] => [Sequence GROUP []] | _ => items end).
  assert (Hopened : all_groups opened).
  { destruct items; [apply all_groups_group|exact Hgroups]. }
  destruct (last opened) as [[| type last_items | |]|] eqn:E; try discriminate.
  intros [= <-]. split; [destruct (removelast opened); discriminate|].
  pose proof (removelast_app_last _ _ E) as Hsplit.
  rewrite Hsplit in Hopened. unfold all_groups in Hopened.
  apply Forall_app in Hopened as [Hfront Hlast].
  apply all_groups_app; [exact Hfront|].
  apply Forall_cons_1 in Hlast as [(inner & [= -> _]) _].
  apply all_groups_group.
Qed.

(** An alternative whose branches are groups always takes a new item. *)
Lemma append_to_last_succeeds (items : list Expression) (item : Expression) :
  all_groups items -> exists items', append_to_last items item = Some items'.
Proof.
  unfold append_to_last. intros Hgroups.
  set (opened := match items with [] => [Sequence GROUP []] | _ => items end).
  assert (Hopened : all_groups opened /\ opened <> []).
  { destruct items; split; try discriminate;
      [apply all_groups_group|exact Hgroups]. }
  destruct Hopened as [Hopened Hne].
  destruct (last opened) as [x|] eqn:E.
  - pose proof (removelast_app_last _ _ E) as Hsplit.
    rewrite Hsplit in Hopened. unfold all_groups in Hopened.
    apply Forall_app in Hopened as [_ Hlast].
    apply Forall_cons_1 in Hlast as [(inner & ->) _]. eauto.
  - exfalso. apply last_None in E. contradiction.
Qed.

Section AnyTokenizer.

Variable next_chunk : str -> Parsed (option ParseChunk.t).
Variable remove_delimiters : str -> N -> N -> str.

Abbreviation parse_items := (ParseExpression.parse_items next_chunk remove_delimiters).
Abbreviation parse_group_or_alt :=
  (ParseExpression.parse_group_or_alt next_chunk remove_delimiters).
Abbreviation parse_expression :=
  (ParseExpression.parse_expression next_chunk remove_delimiters).

Lemma parse_items_turn (fuel : nat) (seq_chunk : ParseChunk.t) (seq : Seq)
    (seq_text : str) (item_chunk : ParseChunk.t) :
  parse_items (S fuel) seq_chunk seq seq_text (Some item_chunk)
  = ParserBodies.items_turn next_chunk (parse_expression fuel)
      (parse_items fuel seq_chunk) seq_chunk seq seq_text item_chunk.
Proof. reflexivity. Qed.

Lemma parse_items_end (fuel : nat) (seq_chunk : ParseChunk.t) (seq : Seq)
    (seq_text : str) :
  parse_items (S fuel) seq_chunk seq seq_text None = Ok seq.
Proof. reflexivity. Qed.

Lemma parse_group_or_alt_body (fuel : nat) (seq_chunk : ParseChunk.t) :
  parse_group_or_alt (S fuel) seq_chunk
  = ParserBodies.group_or_alt next_chunk remove_delimiters
      (parse_items fuel seq_chunk) seq_chunk.
Proof. reflexivity. Qed.

Lemma parse_expression_body (fuel : nat) (chunk : ParseChunk.t) :
  parse_expression (S fuel) chunk
  = ParserBodies.expression remove_delimiters (parse_group_or_alt fuel) chunk.
Proof. reflexivity. Qed.

Lemma parse_items_well_formed (fuel : nat) :
  forall seq_chunk seq seq_text item_chunk result,
    well_formed seq ->
    parse_items fuel seq_chunk seq seq_text item_chunk = Ok result ->
    well_formed result.
Proof.
  induction fuel as [|fuel IH];
    intros seq_chunk seq seq_text item_chunk result Hseq; [discriminate|].
  destruct item_chunk as [item_chunk|];
    [|rewrite parse_items_end; intros [= <-]; exact Hseq].
  rewrite parse_items_turn. unfold ParserBodies.items_turn.
  assert (Hnext : forall seq',
    well_formed seq' ->
    (if bool_decide
          (lstrip (drop (ParseChunk.end_index item_chunk) seq_text) = seq_text)
     then ParseExpressionError seq_chunk
     else
       match next_chunk (lstrip (drop (ParseChunk.end_index item_chunk) seq_text)) with
       | Ok next =>
           parse_items fuel seq_chunk seq'
             (lstrip (drop (ParseChunk.end_index item_chunk) seq_text)) next
       | _ => ParseError
       end) = Ok result ->
    well_formed result).
  { intros seq' Hseq'. destruct (bool_decide _); [discriminate|].
    destruct (next_chunk _) as [next| | |]; try discriminate.
    apply IH, Hseq'. }
  destruct (ParseChunk.parse_type item_chunk); try discriminate;
    try (destruct (parse_expression fuel item_chunk) as [item| | |];
         [|discriminate..];
         destruct seq as [[|] items]; cbn [fst snd];
         [ apply Hnext; intros [=]
         | destruct (append_to_last items item) as [items'|] eqn:E;
           [|discriminate];
           apply Hnext; intros _; cbn [snd];
           destruct (Hseq Logic.eq_refl) as [_ Hgroups];
           apply (append_to_last_groups items items' item Hgroups E) ]).
  apply Hnext. intros _.
  destruct (ensure_alternative_well_formed seq Hseq) as (Htype & Hne & Hgroups).
  unfold append_item. simpl. split.
  - destruct (snd (ensure_alternative seq)); discriminate.
  - apply all_groups_app; [exact Hgroups|apply all_groups_group].
Qed.




End AnyTokenizer.

End ShapeFacts.

(** ** The context of a list value *)

Module ValueContextFacts.

Import Recognize Examples MoreExamples GenFacts.

(** X23: every context that a reference to a list of texts yields comes
    from one value of the list and one context [inner] that the
    expression of this value yields from the incoming context: it is
    the capture of [inner] for this value. When this value carries a
    context that is not empty, the intent context yielded is the
    incoming one overridden by it: a key of the value's context gets the
    value's value, every other key keeps what the incoming context gives
    it. When it carries no context, or an empty one, the intent context
    yielded is that of [inner]. *)
Theorem list_value_context_wins (fuel : nat) (settings : MatchSettings.t)
    (c c' : MatchContext.t) (list_name slot_name : str)
    (values : list TextSlotValue.t) :
  MatchSettings.slot_lists settings !! list_name = Some (TextSlotList values) ->
  In c' (Gen.yielded (match_expression (S fuel) settings c
                        (ListReference list_name slot_name))) ->
  exists slot_value inner,
    In slot_value values
    /\ In inner (Gen.yielded (match_expression fuel settings c
                                (TextSlotValue.text_in slot_value)))
    /\ c' = capture c slot_name slot_value inner
    /\ (forall value_context,
          TextSlotValue.context slot_value = Some value_context ->
          value_context <> ∅ ->
          forall key,
            MatchContext.intent_context c' !! key
            = match value_context !! key with
              | Some v => Some v
              | None => MatchContext.intent_context c !! key
              end)
    /\ (TextSlotValue.context slot_value = None
        \/ TextSlotValue.context slot_value = Some ∅ ->
        MatchContext.intent_context c' = MatchContext.intent_context inner).
Proof.
  intros Hlist.
  rewrite RecursionFacts.match_list_reference.
  unfold Branches.list_reference.
  rewrite (RangeFacts.guard_of_lookup _ _ _ Hlist), Hlist.
  destruct (truthy (MatchContext.text c)); [|intros []].
  intros Hin. apply in_for_each in Hin as (slot_value & Hvalue & Hin).
  apply in_map_yield in Hin as (inner & Hinner & ->).
  rewrite context_eta in Hinner.
  exists slot_value, inner.
  split; [exact Hvalue|]. split; [exact Hinner|]. split; [reflexivity|].
  split.
  - intros value_context Hcontext Hne key.
    unfold capture, opt_dict_truthy, dict_truthy. rewrite Hcontext.
    rewrite bool_decide_eq_false_2 by exact Hne. simpl.
    unfold dict_merge. rewrite lookup_union.
    destruct (value_context !! key), (MatchContext.intent_context c !! key);
      reflexivity.
  - intros [Hcontext|Hcontext];
      unfold capture, opt_dict_truthy, dict_truthy; rewrite Hcontext.
    + reflexivity.
    + rewrite bool_decide_eq_true_2 by reflexivity. reflexivity.
Qed.

End ValueContextFacts.

(** ** Whitespace *)

Module WhitespaceFacts.

Import Helpers Notions.

Lemma whitespace_sub_normalized (in_run : bool) (s : str) :
  normalized in_run (whitespace_sub_from [32] in_run s) = true.
Proof.
  revert in_run. induction s as [|c s IH]; intros in_run; [reflexivity|].
  simpl. destruct (is_space c) eqn:E.
  - destruct in_run; simpl; [apply IH|]. apply IH.
  - simpl. rewrite E. apply IH.
Qed.

Lemma whitespace_sub_fixed (in_run : bool) (s : str) :
  normalized in_run s = true -> whitespace_sub_from [32] in_run s = s.
Proof.
  revert in_run. induction s as [|c s IH]; intros in_run; [reflexivity|].
  simpl. destruct (is_space c).
  - intros H. apply andb_prop in H as [H Hrest].
    apply andb_prop in H as [Hc Hrun].
    apply N.eqb_eq in Hc. subst c.
    apply negb_true_iff in Hrun. subst in_run. simpl.
    rewrite (IH true Hrest). reflexivity.
  - intros H. rewrite (IH false H). reflexivity.
Qed.

(** X24: [_normalize_whitespace] leaves only single spaces as
    whitespace, and normalizing again changes nothing. *)
Theorem normalize_whitespace_idempotent (text : str) :
  normalized false (_normalize_whitespace text) = true
  /\ _normalize_whitespace (_normalize_whitespace text)
     = _normalize_whitespace text.
Proof.
  unfold _normalize_whitespace. split.
  - apply whitespace_sub_normalized.
  - apply whitespace_sub_fixed, whitespace_sub_normalized.
Qed.

End WhitespaceFacts.

(** ** The properties at work *)

Module Instances.

Import Recognize SequenceType Shape Helpers Notions Examples MoreExamples.

(** X11 at a range with the step zero and the input [5]. *)
Lemma range_step_zero_raises_witness :
  match_expression 1 zero_step_settings (at_start "5")
    (ListReference (lit "level") (lit "level"))
  = ([], Raised ValueError).
Proof.
  apply (RangeEdgeFacts.range_step_zero_raises 0 zero_step_settings
           (at_start "5") (lit "level") (lit "level") 0 10 (lit "5"));
    reflexivity.
Defined.

(** X12 at the range from ten down by one and the input [5 seconds]. *)
Lemma range_negative_step_witness :
  match_expression 1 countdown_settings (at_start "5 seconds")
    (ListReference (lit "countdown") (lit "countdown"))
  = ([MatchContext.mk (lit " seconds")
        [MatchEntity.mk (lit "countdown") (VInt 5) (lit "5")] ∅ true],
     Finished).
Proof.
  apply (RangeEdgeFacts.range_negative_step 0 countdown_settings
           (at_start "5 seconds") (lit "countdown") (lit "countdown")
           10 0 (-1) (lit "5") 5); first [reflexivity | lia].
Defined.

(** The bound [stop] of a range that runs down is not accepted. *)
Example countdown_stops_short :
  match_expression 1 countdown_settings (at_start "0")
    (ListReference (lit "countdown") (lit "countdown")) = ([], Finished)
  /\ match_expression 1 countdown_settings (at_start "1")
       (ListReference (lit "countdown") (lit "countdown")) = ([], Finished).
Proof. split; reflexivity. Qed.

(** X13 at the rule [loop], which is [<loop>]. *)
Lemma self_referring_rule_diverges_witness :
  match_expression 5 loop_settings (at_start "x") (RuleReference (lit "loop"))
  = ([], OutOfFuel).
Proof.
  apply (RecursionFacts.self_referring_rule_diverges loop_settings (lit "loop")).
  reflexivity.
Defined.

(** X14 at the template [turn (on|off)]. *)
Lemma reference_free_finishes_witness :
  Gen.stop (match_expression 4 no_settings (at_start "turn off") turn_on_off)
  = Finished.
Proof.
  apply (RecursionFacts.reference_free_finishes no_settings 4
           (at_start "turn off") turn_on_off).
  - reflexivity.
  - vm_compute. lia.
Defined.

(** X15 at the same template, with three more units of budget. *)
Lemma match_expression_stable_witness :
  match_expression (4 + 3) no_settings (at_start "turn off") turn_on_off
  = match_expression 4 no_settings (at_start "turn off") turn_on_off.
Proof.
  apply (RecursionFacts.match_expression_stable no_settings 4 3
           (at_start "turn off") turn_on_off).
  vm_compute. discriminate.
Defined.

(** X17 at two intents that differ in the order of their keys. *)
Lemma skip_match_order_irrelevant_witness :
  Driver.skip_match two_keys (at_start "")
  = Driver.skip_match two_keys_swapped (at_start "").
Proof.
  apply (ContextFacts.skip_match_order_irrelevant two_keys two_keys_swapped
           (at_start "")); apply perm_swap.
Defined.

(** X18 at the sentence [a] before a reference to a missing list. *)
Lemma first_branch_match_wins_witness :
  is_match (fun s => s) (fun s => s) (fun _ s => s)
    2 (lit "a")
    (Sequence ALTERNATIVE
       [TextChunk (lit "a"); ListReference (lit "missing") (lit "missing")])
    None None [] None false
  = Match (MatchContext.mk (lit " ") [] ∅ false).
Proof.
  apply (EntryFacts.first_branch_match_wins (fun s => s) (fun s => s)
           (fun _ s => s) 1 (lit "a") (TextChunk (lit "a"))
           [ListReference (lit "missing") (lit "missing")]
           None None [] None false).
  reflexivity.
Defined.

(** Without the first branch the missing list is an error. *)
Example missing_list_alone_fails :
  is_match (fun s => s) (fun s => s) (fun _ s => s)
    2 (lit "a")
    (Sequence ALTERNATIVE
       [ListReference (lit "missing") (lit "missing"); TextChunk (lit "a")])
    None None [] None false
  = Fails (MissingListError (lit "missing")).
Proof. reflexivity. Qed.

(** X19 at the template [turn (on|off)] and the input [turn off!]. *)
Lemma is_match_decides_witness :
  match is_match (fun s => s) (fun s => s) (fun _ s => s)
          4 (lit "turn off!") turn_on_off None None [] None false with
  | Match m => forallb is_filler (MatchContext.text m) = true
  | NoMatch => True
  | Fails _ => False
  | Diverges => False
  end.
Proof.
  apply (EntryFacts.is_match_decides (fun s => s) (fun s => s) (fun _ s => s)
           4 (lit "turn off!") turn_on_off None None [] None false).
  - reflexivity.
  - vm_compute. lia.
Defined.




(** X23 at the movie scene, which sets the mode to dark. *)
Lemma list_value_context_wins_witness :
  exists slot_value inner,
    In slot_value
      [TextSlotValue.mk (TextChunk (lit "movie")) (VStr (lit "movie"))
         (Some {[ lit "mode" := VStr (lit "dark") ]})]
    /\ In inner (Gen.yielded (match_expression 1 scene_settings bright_context
                                (TextSlotValue.text_in slot_value)))
    /\ movie_matched = capture bright_context (lit "scene") slot_value inner
    /\ (forall value_context,
          TextSlotValue.context slot_value = Some value_context ->
          value_context <> ∅ ->
          forall key,
            MatchContext.intent_context movie_matched !! key
            = match value_context !! key with
              | Some v => Some v
              | None => MatchContext.intent_context bright_context !! key
              end)
    /\ (TextSlotValue.context slot_value = None
        \/ TextSlotValue.context slot_value = Some ∅ ->
        MatchContext.intent_context movie_matched
        = MatchContext.intent_context inner).
Proof.
  apply (ValueContextFacts.list_value_context_wins 1 scene_settings
           bright_context movie_matched (lit "scene") (lit "scene")).
  - reflexivity.
  - vm_compute. left. reflexivity.
Defined.

End Instances.

(** ** The early exit of a group *)

Module ShortCircuitFacts.

Import Recognize SequenceType Examples GenFacts.

(** X25: a group stops at the first item that yields nothing: when its
    first item finishes without a context, the group finishes without a
    context as well, and the items after it are not matched at all, so
    that a list or rule they refer to may be missing without an
    error. *)
Theorem group_stops_at_first_failure (fuel : nat) (settings : MatchSettings.t)
    (c : MatchContext.t) (item : Expression) (rest : list Expression) :
  match_expression fuel settings c item = ([], Finished) ->
  match_expression (S fuel) settings c (Sequence GROUP (item :: rest))
  = ([], Finished).
Proof.
  intros Hitem. rewrite SequenceFacts.match_group_cons, group_loop_cons.
  simpl. rewrite Hitem. simpl. rewrite group_loop_nil. reflexivity.
Qed.

(** X25 at the group of [x] and a missing list, on the input [y]. *)
Lemma group_stops_at_first_failure_witness :
  match_expression 2 no_settings (at_start "y")
    (Sequence GROUP
       [TextChunk (lit "x"); ListReference (lit "missing") (lit "missing")])
  = ([], Finished).
Proof.
  apply (group_stops_at_first_failure 1 no_settings (at_start "y")
           (TextChunk (lit "x"))
           [ListReference (lit "missing") (lit "missing")]).
  reflexivity.
Defined.

End ShortCircuitFacts.
